(** * PipVideo: the Picture-in-Picture arbitration engine

    A shallow embedding of the background script (the ranking comparator
    [sorting], [triggerPictureInPicture], the exit-guard installer and the
    in-frame activation function, the dispatchers, the badge colour and the
    FAQs page), of the content script's message listener and of the popup's
    playlist, followed by the properties of the specification proved or
    refuted against them and by further properties of the code. *)

From Stdlib Require Import ZArith NArith List Bool String Lia Permutation Sorted.
From Stdlib Require QArith.
Import ListNotations.

Set Implicit Arguments.

(* ------------------------------------------------------------------ *)
(** ** The fragment of JavaScript values the scripts compute with *)

Module JS.

Inductive number := Num (z : Z) | NaN.

Inductive value :=
| Undefined
| Boolean (b : bool)
| Number (n : number).

(** [ToBoolean]: what an [if (v)] or an operand of [&&] tests. *)
Definition truthy (v : value) : bool :=
  match v with
  | Undefined => false
  | Boolean b => b
  | Number (Num z) => negb (z =? 0)%Z
  | Number NaN => false
  end.

(** [v === false]. *)
Definition is_false (v : value) : bool :=
  match v with
  | Boolean false => true
  | _ => false
  end.

(** [ToNumber]. *)
Definition to_number (v : value) : number :=
  match v with
  | Undefined => NaN
  | Boolean true => Num 1
  | Boolean false => Num 0
  | Number n => n
  end.

(** [a - b]. *)
Definition sub (a b : value) : value :=
  match to_number a, to_number b with
  | Num x, Num y => Number (Num (x - y))
  | _, _ => Number NaN
  end.

(** How [Array.prototype.sort] reads what a comparator returned
    (SortCompare): [ToNumber] of it, and [NaN] counts as [+0]. *)
Definition sort_order (v : value) : Z :=
  match to_number v with
  | Num z => z
  | NaN => 0%Z
  end.

Section Arrays.
Variable A : Type.
Variable comparefn : A -> A -> value.

(** The comparator does not put [y] before [x]. *)
Definition ordered (x y : A) : Prop := (sort_order (comparefn x y) <= 0)%Z.

(** [x] comes from the left of the already sorted [l]: it stays in
    front of the elements it ties with. *)
Fixpoint insert (x : A) (l : list A) : list A :=
  match l with
  | [] => [x]
  | y :: t =>
      if (sort_order (comparefn x y) <=? 0)%Z then x :: y :: t
      else y :: insert x t
  end.

(** [arr.sort(comparefn)]: the stable sort ECMAScript prescribes. *)
Definition sort (l : list A) : list A := fold_right insert [] l.

(** [arr.shift()], as the value it returns ([None] is [undefined]). *)
Definition shift (l : list A) : option A :=
  match l with
  | [] => None
  | x :: _ => Some x
  end.
End Arrays.

End JS.

(* ------------------------------------------------------------------ *)
(** ** Objects the comparators read

    Both copies of [sorting] read the properties [paused], [connected] and
    [frameId] of whatever objects the array holds; a property an object does
    not have reads as [undefined]. *)

Class VideoLike (A : Type) := {
  get_paused : A -> JS.value;
  get_connected : A -> JS.value;
  get_frameId : A -> JS.value
}.

(** A video element of a page: [paused] and [isConnected] are its DOM
    properties, [el_id] stands for the identity of the object. *)
Record Element := {
  el_id : nat;
  el_paused : bool;
  el_isConnected : bool
}.

(** An element has neither a [connected] nor a [frameId] property. *)
#[export] Instance Element_VideoLike : VideoLike Element := {
  get_paused e := JS.Boolean (el_paused e);
  get_connected _ := JS.Undefined;
  get_frameId _ := JS.Undefined
}.

(** What the probe returns for one element: [{paused, connected}]. *)
Record Probed := {
  probed_paused : bool;
  probed_connected : bool
}.

(** A probed object once the background script has set [frameId] on it:
    the VideoCandidate of the data model. *)
Record Candidate := {
  paused : bool;
  connected : bool;
  frameId : Z
}.

#[export] Instance Candidate_VideoLike : VideoLike Candidate := {
  get_paused c := JS.Boolean (paused c);
  get_connected c := JS.Boolean (connected c);
  get_frameId c := JS.Number (JS.Num (frameId c))
}.

(* ------------------------------------------------------------------ *)
(** ** Candidate Prober: the function injected into every frame

    The [func] of the first [executeScript] of [triggerPictureInPicture]. *)

Module Prober.

(** A frame's document at one moment: the global [videos] when it is an
    object, and the result of [document.querySelectorAll('video')]. *)
Record Frame := {
  videos : option (list Element);
  queried : list Element
}.

Definition has (es : list Element) (v : Element) : bool :=
  existsb (fun e => Nat.eqb (el_id e) (el_id v)) es.

(** [es.add(v)] on a [Set]: insertion order, one entry per object. *)
Definition add (es : list Element) (v : Element) : list Element :=
  if has es v then es else es ++ [v].

(** The element-discovery merge shared by the probe and the activation. *)
Definition collect (f : Frame) : list Element :=
  let es := [] in
  let es := match videos f with
            | Some vs => fold_left add vs es
            | None => es
            end in
  fold_left add (queried f) es.

Definition snapshot (e : Element) : Probed :=
  {| probed_paused := el_paused e; probed_connected := el_isConnected e |}.

Definition func (f : Frame) : list Probed := map snapshot (collect f).

End Prober.

(* ------------------------------------------------------------------ *)
(** ** Candidate Ranker: the background script's comparator

    [sorting], and the expression that builds the candidate list, sorts it
    and takes its first element in [triggerPictureInPicture]. *)

Module Ranker.
Import JS.

Definition sorting {A : Type} `{VideoLike A} (a b : A) : value :=
  if is_false (get_paused a) && truthy (get_paused b) then Number (Num (-1))
  else if is_false (get_paused b) && truthy (get_paused a) then Number (Num 1)
  else if is_false (get_connected a) && truthy (get_connected b) then Number (Num (-1))
  else if is_false (get_connected b) && truthy (get_connected a) then Number (Num 1)
  else sub (get_frameId a) (get_frameId b).

(** One entry of what [executeScript] resolves to. *)
Record InjectionResult := {
  ir_frameId : Z;
  ir_result : list Probed
}.

(** [v.frameId = o.frameId; return v]. *)
Definition tag (o : InjectionResult) (v : Probed) : Candidate :=
  {| paused := probed_paused v;
     connected := probed_connected v;
     frameId := ir_frameId o |}.

(** [(r || []).map(o => o.result.map(...)).flat()]. *)
Definition candidates (r : option (list InjectionResult)) : list Candidate :=
  let r := match r with Some r => r | None => [] end in
  List.concat (map (fun o => map (tag o) (ir_result o)) r).

(** [.sort(sorting).shift()]. *)
Definition rank_and_select (l : list Candidate) : option Candidate :=
  shift (sort sorting l).

(** [a] is placed before [b]: the comparator is negative on [(a, b)]. *)
Definition ranks_ahead (a b : Candidate) : Prop :=
  (sort_order (sorting a b) < 0)%Z.

Definition in_order (a b : Candidate) : Prop := ordered sorting a b.

(** What ECMAScript requires of the array a sort leaves behind, whichever
    algorithm the engine runs: a permutation of the input that the
    comparator finds in order. *)
Definition sort_outcome (l s : list Candidate) : Prop :=
  Permutation l s /\ StronglySorted in_order s.

End Ranker.

(* ------------------------------------------------------------------ *)
(** ** PiP Activator: the function injected into the winning frame

    The [func] of the last [executeScript]: it collects the frame's videos
    as the probe does and sorts the elements with its own [sorting]. *)

Module Activator.
Import JS.

(** The in-frame copy of the comparator: the same four tests, and no
    final [else], so it returns [undefined] when none of them holds. *)
Definition sorting {A : Type} `{VideoLike A} (a b : A) : value :=
  if is_false (get_paused a) && truthy (get_paused b) then Number (Num (-1))
  else if is_false (get_paused b) && truthy (get_paused a) then Number (Num 1)
  else if is_false (get_connected a) && truthy (get_connected b) then Number (Num (-1))
  else if is_false (get_connected b) && truthy (get_connected a) then Number (Num 1)
  else Undefined.

(** [[...es].sort(sorting).shift()]: the array holds the elements. *)
Definition select (f : Prober.Frame) : option Element :=
  shift (sort sorting (Prober.collect f)).

End Activator.

(* ------------------------------------------------------------------ *)
(** ** Exit-Guard Installer: the function injected in the MAIN world

    The state is what the function reads and writes in its frame:
    [Document.prototype.exitPictureInPicture], [self.pipobj] and the
    frame's pending timeouts.  Time is in milliseconds. *)

Module ExitGuard.
Local Open Scope N_scope.

(** The functions that can sit in the slot: the one found there before
    any installation, and proxies around a target. *)
Inductive fn :=
| Original (ref : nat)
| Proxy (target : fn).

Inductive call_result :=
| Executed (ref : nat)     (* the operation ran: the PiP session is left *)
| Ignored.                 (* the [apply] trap: logged, nothing forwarded *)

(** Calling [document.exitPictureInPicture()] through the slot. *)
Definition call (f : fn) : call_result :=
  match f with
  | Original r => Executed r
  | Proxy _ => Ignored
  end.

Record pipobj_t := {
  pointer : fn;
  id : option nat
}.

Record frame := {
  now : N;
  exitPictureInPicture : fn;
  pipobj : option pipobj_t;
  timers : list (nat * N);        (* pending timeouts: handle, due time *)
  next_handle : nat;
  restorations : list N;          (* when a timeout's callback ran *)
  calls : list (N * call_result)  (* what the page's calls to the slot did *)
}.

(** [clearTimeout(h)]; an [undefined] handle clears nothing. *)
Definition clearTimeout (h : option nat) (ts : list (nat * N)) : list (nat * N) :=
  match h with
  | Some h => filter (fun t => negb (Nat.eqb (fst t) h)) ts
  | None => ts
  end.

(** The injected function. *)
Definition install (s : frame) : frame :=
  let po := match pipobj s with
            | Some po => po
            | None => {| pointer := exitPictureInPicture s; id := None |}
            end in
  let ts := clearTimeout (id po) (timers s) in
  let h := next_handle s in
  {| now := now s;
     exitPictureInPicture := Proxy (exitPictureInPicture s);
     pipobj := Some {| pointer := pointer po; id := Some h |};
     timers := ts ++ [(h, now s + 2000)];
     next_handle := S h;
     restorations := restorations s;
     calls := calls s |}.

(** The timeout's callback, run when timeout [h] is due at [due]:
    [Document.prototype.exitPictureInPicture = self.pipobj.pointer].
    Without a [self.pipobj] the read throws and the slot is left as it is. *)
Definition fire (h : nat) (due : N) (s : frame) : frame :=
  {| now := due;
     exitPictureInPicture :=
       match pipobj s with
       | Some po => pointer po
       | None => exitPictureInPicture s
       end;
     pipobj := pipobj s;
     timers := clearTimeout (Some h) (timers s);
     next_handle := next_handle s;
     restorations := restorations s ++ [due];
     calls := calls s |}.

(** The pending timeout that is due first (the oldest among equals). *)
Fixpoint earliest (ts : list (nat * N)) : option (nat * N) :=
  match ts with
  | [] => None
  | t :: rest =>
      match earliest rest with
      | Some t' => if snd t <=? snd t' then Some t else Some t'
      | None => Some t
      end
  end.

Fixpoint run_timers (fuel : nat) (until : N) (s : frame) : frame :=
  match fuel with
  | O => s
  | S fuel =>
      match earliest (timers s) with
      | Some (h, due) =>
          if due <=? until then run_timers fuel until (fire h due s) else s
      | None => s
      end
  end.

(** [d] milliseconds pass: every timeout due by then runs, in order. *)
Definition advance (d : N) (s : frame) : frame :=
  let until := now s + d in
  let s' := run_timers (List.length (timers s)) until s in
  {| now := until;
     exitPictureInPicture := exitPictureInPicture s';
     pipobj := pipobj s';
     timers := timers s';
     next_handle := next_handle s';
     restorations := restorations s';
     calls := calls s' |}.

(** The page calls [document.exitPictureInPicture()]. *)
Definition page_exit (s : frame) : frame :=
  {| now := now s;
     exitPictureInPicture := exitPictureInPicture s;
     pipobj := pipobj s;
     timers := timers s;
     next_handle := next_handle s;
     restorations := restorations s;
     calls := calls s ++ [(now s, call (exitPictureInPicture s))] |}.

Inductive op :=
| Install
| Wait (d : N)
| PageExit.

Definition step (s : frame) (o : op) : frame :=
  match o with
  | Install => install s
  | Wait d => advance d s
  | PageExit => page_exit s
  end.

Definition run (ops : list op) (s : frame) : frame := fold_left step ops s.

Definition is_install (o : op) : bool :=
  match o with
  | Install => true
  | _ => false
  end.

(** The time that passes over a sequence of events. *)
Fixpoint waited (ops : list op) : N :=
  match ops with
  | [] => 0
  | Wait d :: rest => d + waited rest
  | _ :: rest => waited rest
  end.

(** A frame in which the guard was never installed. *)
Definition fresh (f0 : nat) (t0 : N) (h0 : nat) : frame :=
  {| now := t0;
     exitPictureInPicture := Original f0;
     pipobj := None;
     timers := [];
     next_handle := h0;
     restorations := [];
     calls := [] |}.

(** The shapes a frame that started with [Original f0] in the slot can
    be in: no guard ever installed; a guard installed and expired; a guard
    in place, with the one timeout [self.pipobj.id] pending. *)
Inductive guard_state (f0 : nat) (s : frame) : Prop :=
| never_installed :
    pipobj s = None -> timers s = [] ->
    exitPictureInPicture s = Original f0 ->
    guard_state f0 s
| expired (h : nat) :
    pipobj s = Some {| pointer := Original f0; id := Some h |} ->
    timers s = [] ->
    exitPictureInPicture s = Original f0 ->
    guard_state f0 s
| guarding (h : nat) (due : N) (g : fn) :
    pipobj s = Some {| pointer := Original f0; id := Some h |} ->
    timers s = [(h, due)] ->
    exitPictureInPicture s = Proxy g ->
    now s < due -> due <= now s + 2000 ->
    guard_state f0 s.

(** What the restoration log and the slot are after events among which
    the guard is not installed again. *)
Definition quiet_outcome (f0 : nat) (ops : list op) (s : frame) : Prop :=
  match timers s with
  | [] =>
      restorations (run ops s) = restorations s /\
      exitPictureInPicture (run ops s) = Original f0 /\
      timers (run ops s) = []
  | (h, due) :: _ =>
      if due <=? now s + waited ops then
        restorations (run ops s) = restorations s ++ [due] /\
        exitPictureInPicture (run ops s) = Original f0 /\
        timers (run ops s) = []
      else
        restorations (run ops s) = restorations s /\
        timers (run ops s) = timers s
  end.

End ExitGuard.

(* ------------------------------------------------------------------ *)
(** ** The background script: [onMessage] and [triggerPictureInPicture]

    What the browser answers is the [World]; what the script does to the
    browser and to the page is the trace of [event]s. *)

Module Background.
Import JS Ranker.
Local Open Scope string_scope.
Local Open Scope list_scope.

Inductive script := ProbeFunc | GuardFunc | ActivationFunc.

Inductive target := AllFrames | FrameIds (ids : list Z).

Inductive event :=
| SetIcon (tabId : Z)
| ExecuteScript (tabId : Z) (t : target) (f : script)
| StorageGet
| GuardInstalled (frame : Z)
| RequestPictureInPicture (frame : Z) (video : Element)
| Alert (frame : Z) (message : string)
| ConsoleWarn (message : string)
| SetBadgeText (tabId : Z) (text : string)
| SetTitle (tabId : Z) (title : string).

Record World := {
  (** the first [executeScript]: rejected with a message, or resolved *)
  probe : string + option (list InjectionResult);
  (** [prefs['block-pip']] *)
  block_pip : bool;
  (** the message the second and third [executeScript] reject with *)
  guard_injection : option string;
  activation_injection : option string;
  (** the winning frame's document when the activation function runs *)
  frame_at_activation : Z -> Prober.Frame;
  (** the message [video.requestPictureInPicture()] rejects with *)
  request_pip : Element -> option string
}.

(** Computations that log events and may throw an error's message. *)
Definition M (A : Type) : Type := (list event * (string + A))%type.

Definition ret {A : Type} (a : A) : M A := ([], inr a).
Definition throw {A : Type} (message : string) : M A := ([], inl message).
Definition emit (e : event) : M unit := ([e], inr tt).

Definition bind {A B : Type} (m : M A) (k : A -> M B) : M B :=
  match m with
  | (tr, inl e) => (tr, inl e)
  | (tr, inr a) => let (tr', r) := k a in (tr ++ tr', r)
  end.

Definition try_catch (body : M unit) (handler : string -> M unit) : M unit :=
  match body with
  | (tr, inl e) => let (tr', r) := handler e in (tr ++ tr', r)
  | (tr, inr a) => (tr, inr a)
  end.

Notation "x <- m ;; k" := (bind m (fun x => k))
  (at level 61, m at next level, right associativity).
Notation "m ;; k" := (bind m (fun _ => k))
  (at level 61, right associativity).

Definition onMessage (method : string) (tabId : Z) : M unit :=
  if method =? "playing" then emit (SetIcon tabId) else ret tt.

Definition execute_probe (w : World) (tabId : Z)
  : M (option (list InjectionResult)) :=
  emit (ExecuteScript tabId AllFrames ProbeFunc) ;;
  match probe w with
  | inl message => throw message
  | inr r => ret r
  end.

Definition execute_guard (w : World) (tabId frame : Z) : M unit :=
  emit (ExecuteScript tabId (FrameIds [frame]) GuardFunc) ;;
  match guard_injection w with
  | Some message => throw message
  | None => emit (GuardInstalled frame)
  end.

(** The activation function, in the frame: the rejection of the request
    is handled there, by [.catch(e => alert(e.message))]. *)
Definition activation_func (w : World) (frame : Z) : M unit :=
  match Activator.select (frame_at_activation w frame) with
  | Some video =>
      emit (RequestPictureInPicture frame video) ;;
      match request_pip w video with
      | Some message => emit (Alert frame message)
      | None => ret tt
      end
  | None => ret tt
  end.

Definition execute_activation (w : World) (tabId frame : Z) : M unit :=
  emit (ExecuteScript tabId (FrameIds [frame]) ActivationFunc) ;;
  match activation_injection w with
  | Some message => throw message
  | None => activation_func w frame
  end.

Definition triggerPictureInPicture_body (w : World) (tabId : Z) : M unit :=
  try_catch
    (r <- execute_probe w tabId ;;
     match rank_and_select (candidates r) with
     | Some video =>
         onMessage "playing" tabId ;;
         prefs <- (emit StorageGet ;; ret (block_pip w)) ;;
         (if prefs : bool then execute_guard w tabId (frameId video) else ret tt) ;;
         execute_activation w tabId (frameId video)
     | None => throw "No player is detected"
     end)
    (fun e =>
       emit (ConsoleWarn e) ;;
       emit (SetBadgeText tabId "E") ;;
       emit (SetTitle tabId e)).

(** Everything one invocation does, in order. *)
Definition triggerPictureInPicture (w : World) (tabId : Z) : list event :=
  fst (triggerPictureInPicture_body w tabId).

Definition is_guard_or_activation (e : event) : bool :=
  match e with
  | ExecuteScript _ _ GuardFunc | ExecuteScript _ _ ActivationFunc
  | GuardInstalled _ | RequestPictureInPicture _ _ => true
  | _ => false
  end.

Definition is_badge_or_title (e : event) : bool :=
  match e with
  | SetBadgeText _ _ | SetTitle _ _ => true
  | _ => false
  end.

End Background.

(* ------------------------------------------------------------------ *)
(** ** The content script's message listener

    The function given to [chrome.runtime.onMessage.addListener] in the
    content script, with its two branches [getVideoInfo] and [triggerPip]. *)

Module Content.
Import JS.
Local Open Scope string_scope.
Local Open Scope list_scope.

Record Video := {
  v_id : nat;
  v_paused : bool;
  v_currentTime : number;
  v_duration : number
}.

Record Page := {
  page_videos : list Video;          (* [document.querySelectorAll('video')] *)
  pictureInPictureEnabled : bool
}.

(** [{action, timestamp?: number}]. *)
Record Request := {
  action : string;
  timestamp : option number
}.

Definition get_timestamp (request : Request) : value :=
  match timestamp request with
  | Some n => Number n
  | None => Undefined
  end.

Inductive Response :=
| Success (currentTime duration : number) (paused : bool)
| Failure (message : string).

Inductive effect :=
| SendResponse (r : Response)
| SetCurrentTime (video : nat) (t : value)
| Play (video : nat)
| RequestPictureInPicture (video : nat)
| ConsoleError (message : string).

Record Env := {
  (** the document so many milliseconds after the message arrived *)
  page_at : N -> Page;
  (** the message [requestPictureInPicture()] rejects with *)
  pip_rejection : option string
}.

(** The listener: what it does, each effect with the delay after which
    it happens, and what it returns. *)
Definition listener (env : Env) (request : Request)
  : list (N * effect) * value :=
  if action request =? "getVideoInfo" then
    let videoList := page_videos (page_at env 0) in
    let playingVideo :=
      match find (fun v => negb (v_paused v)) videoList with
      | Some v => Some v
      | None => shift videoList
      end in
    (match playingVideo with
     | Some v => [(0%N, SendResponse
                          (Success (v_currentTime v) (v_duration v) (v_paused v)))]
     | None => [(0%N, SendResponse (Failure "No video found on the page"))]
     end, Boolean true)
  else if action request =? "triggerPip" then
    ((if truthy (get_timestamp request) then
        match shift (page_videos (page_at env 2000)) with
        | Some video =>
            [(2000%N, SetCurrentTime (v_id video) (get_timestamp request));
             (2000%N, Play (v_id video))]
            ++ (if pictureInPictureEnabled (page_at env 2500) then
                  (2500%N, RequestPictureInPicture (v_id video))
                  :: match pip_rejection env with
                     | Some message => [(2500%N, ConsoleError message)]
                     | None => []
                     end
                else [])
        | None => []
        end
      else []), Boolean true)
  else ([], Undefined).

Definition effects (env : Env) (request : Request) : list (N * effect) :=
  fst (listener env request).

End Content.

(* ------------------------------------------------------------------ *)
(** ** Concrete inputs used below *)

Module Scenario.
Local Open Scope Z_scope.

(** [[{paused:true,connected:true,frameId:3},
      {paused:true,connected:false,frameId:1}]] *)
Definition paused_attached : Candidate :=
  {| paused := true; connected := true; frameId := 3 |}.
Definition paused_detached : Candidate :=
  {| paused := true; connected := false; frameId := 1 |}.

(** [[{paused:true,connected:true,frameId:0},
      {paused:false,connected:true,frameId:2},
      {paused:false,connected:false,frameId:1}]] *)
Definition three_frames : list Candidate :=
  [ {| paused := true; connected := true; frameId := 0 |};
    {| paused := false; connected := true; frameId := 2 |};
    {| paused := false; connected := false; frameId := 1 |} ].

Definition playing_attached : Candidate :=
  {| paused := false; connected := true; frameId := 9 |}.
Definition paused_anywhere : Candidate :=
  {| paused := true; connected := true; frameId := 0 |}.

(** A frame with two playing videos, both in the global [videos], one
    of them no longer attached to the document. *)
Definition attached : Element :=
  {| el_id := 0; el_paused := false; el_isConnected := true |}.
Definition detached : Element :=
  {| el_id := 1; el_paused := false; el_isConnected := false |}.
Definition two_playing : Prober.Frame :=
  {| Prober.videos := Some [attached; detached];
     Prober.queried := [attached] |}.

(** What the probe of that frame, as frame 0, resolves to, and the
    candidate the background script makes of one of its elements. *)
Definition two_playing_probe : list Ranker.InjectionResult :=
  [ {| Ranker.ir_frameId := 0; Ranker.ir_result := Prober.func two_playing |} ].

Definition probed (e : Element) : Candidate :=
  Ranker.tag {| Ranker.ir_frameId := 0;
                Ranker.ir_result := Prober.func two_playing |}
             (Prober.snapshot e).

(** No frame answers the probe with any video. *)
Definition nothing_found : Background.World :=
  {| Background.probe :=
       inr (Some [ {| Ranker.ir_frameId := 0; Ranker.ir_result := [] |} ]);
     Background.block_pip := true;
     Background.guard_injection := None;
     Background.activation_injection := None;
     Background.frame_at_activation :=
       fun _ => {| Prober.videos := None; Prober.queried := [] |};
     Background.request_pip := fun _ => None |}.

(** One frame, one playing video, and the browser refuses the request. *)
Definition refusal : string := "Must be handling a user gesture".

Definition one_video : Prober.Frame :=
  {| Prober.videos := None; Prober.queried := [attached] |}.

Definition request_refused : Background.World :=
  {| Background.probe :=
       inr (Some [ {| Ranker.ir_frameId := 0;
                      Ranker.ir_result := Prober.func one_video |} ]);
     Background.block_pip := true;
     Background.guard_injection := None;
     Background.activation_injection := None;
     Background.frame_at_activation := fun _ => one_video;
     Background.request_pip := fun _ => Some refusal |}.

(** Messages to the content script, and a page with one video. *)
Definition pip_at_zero : Content.Request :=
  {| Content.action := "triggerPip"; Content.timestamp := Some (JS.Num 0) |}.

Definition a_page : Content.Env :=
  {| Content.page_at := fun _ =>
       {| Content.page_videos :=
            [ {| Content.v_id := 0; Content.v_paused := true;
                 Content.v_currentTime := JS.Num 0;
                 Content.v_duration := JS.Num 60 |} ];
          Content.pictureInPictureEnabled := true |};
     Content.pip_rejection := None |}.

End Scenario.

(* ------------------------------------------------------------------ *)
(** ** Reading a trace of the background script *)

Module Trace.
Import Ranker Background.
Local Open Scope string_scope.
Local Open Scope list_scope.


Definition is_request (e : event) : bool :=
  match e with
  | RequestPictureInPicture _ _ => true
  | _ => false
  end.

Definition is_guard (e : event) : bool :=
  match e with
  | ExecuteScript _ _ GuardFunc | GuardInstalled _ => true
  | _ => false
  end.

(** What the [catch] block of [triggerPictureInPicture] does. *)
Definition reported (tabId : Z) (message : string) : list event :=
  [ ConsoleWarn message; SetBadgeText tabId "E"; SetTitle tabId message ].

(** What is done for a winner in frame [frame] up to the injection of
    the activation function. *)
Definition guarded (w : World) (tabId frame : Z) : list event :=
  [ ExecuteScript tabId AllFrames ProbeFunc; SetIcon tabId; StorageGet ]
  ++ (if block_pip w
      then [ ExecuteScript tabId (FrameIds [frame]) GuardFunc;
             GuardInstalled frame ]
      else [])
  ++ [ ExecuteScript tabId (FrameIds [frame]) ActivationFunc ].

(** The seven ways an invocation can go. *)
Inductive shape (w : World) (tabId : Z) : list event -> Prop :=
| probe_rejected (message : string) :
    probe w = inl message ->
    shape w tabId
      (ExecuteScript tabId AllFrames ProbeFunc :: reported tabId message)
| no_winner (r : option (list InjectionResult)) :
    probe w = inr r -> rank_and_select (candidates r) = None ->
    shape w tabId
      (ExecuteScript tabId AllFrames ProbeFunc
         :: reported tabId "No player is detected")
| guard_rejected (r : option (list InjectionResult)) (winner : Candidate)
    (message : string) :
    probe w = inr r -> rank_and_select (candidates r) = Some winner ->
    block_pip w = true -> guard_injection w = Some message ->
    shape w tabId
      ([ ExecuteScript tabId AllFrames ProbeFunc; SetIcon tabId; StorageGet;
         ExecuteScript tabId (FrameIds [frameId winner]) GuardFunc ]
         ++ reported tabId message)
| activation_rejected (r : option (list InjectionResult)) (winner : Candidate)
    (message : string) :
    probe w = inr r -> rank_and_select (candidates r) = Some winner ->
    (block_pip w = true -> guard_injection w = None) ->
    activation_injection w = Some message ->
    shape w tabId (guarded w tabId (frameId winner) ++ reported tabId message)
| nothing_to_activate (r : option (list InjectionResult)) (winner : Candidate) :
    probe w = inr r -> rank_and_select (candidates r) = Some winner ->
    (block_pip w = true -> guard_injection w = None) ->
    activation_injection w = None ->
    Activator.select (frame_at_activation w (frameId winner)) = None ->
    shape w tabId (guarded w tabId (frameId winner))
| request_resolved (r : option (list InjectionResult)) (winner : Candidate)
    (video : Element) :
    probe w = inr r -> rank_and_select (candidates r) = Some winner ->
    (block_pip w = true -> guard_injection w = None) ->
    activation_injection w = None ->
    Activator.select (frame_at_activation w (frameId winner)) = Some video ->
    request_pip w video = None ->
    shape w tabId
      (guarded w tabId (frameId winner)
         ++ [ RequestPictureInPicture (frameId winner) video ])
| request_rejected (r : option (list InjectionResult)) (winner : Candidate)
    (video : Element) (message : string) :
    probe w = inr r -> rank_and_select (candidates r) = Some winner ->
    (block_pip w = true -> guard_injection w = None) ->
    activation_injection w = None ->
    Activator.select (frame_at_activation w (frameId winner)) = Some video ->
    request_pip w video = Some message ->
    shape w tabId
      (guarded w tabId (frameId winner)
         ++ [ RequestPictureInPicture (frameId winner) video;
              Alert (frameId winner) message ]).

End Trace.

(* ------------------------------------------------------------------ *)
(** ** Dispatcher: the context-menu and keyboard-command listeners *)

Module Dispatcher.
Import Background.
Local Open Scope string_scope.
Local Open Scope list_scope.



End Dispatcher.

(* ------------------------------------------------------------------ *)
(** ** The badge colour, set once *)

Module Badge.
Local Open Scope string_scope.
Local Open Scope list_scope.

Inductive call := SetBadgeBackgroundColor (color : string).

(** The listener registered for both [onStartup] and [onInstalled]; the
    state is [once.ran]. *)
Definition once (ran : bool) : bool * list call :=
  if ran then (ran, [])
  else (true, [SetBadgeBackgroundColor "#f10e08"]).

Inductive signal := Startup | Installed.

(** The calls made over a sequence of the two events. *)
Fixpoint deliver (signals : list signal) (ran : bool) : bool * list call :=
  match signals with
  | [] => (ran, [])
  | _ :: rest =>
      let (ran', made) := once ran in
      let (ran'', more) := deliver rest ran' in
      (ran'', made ++ more)
  end.

End Badge.

(* ------------------------------------------------------------------ *)
(** ** FAQs and feedback: the page opened on install and update

    The [onInstalled] listener of the last block of the background script.
    [Date.now()] and ['last-update'] are whole milliseconds; the quotient
    of their difference is taken exactly. *)

Module Faqs.
Local Open Scope string_scope.
Local Open Scope list_scope.

Record Manifest := {
  homepage_url : string;
  name : string;
  version : string
}.

(** [{reason, previousVersion}]; [previousVersion] is absent on install. *)
Record Details := {
  reason : string;
  previousVersion : option string
}.

(** What [chrome.storage.local] holds of the two keys read. *)
Record Storage := {
  stored_faqs : option bool;
  stored_last_update : option Z
}.

(** [storage.local.get({'faqs': true, 'last-update': 0}, ...)]. *)
Definition prefs_faqs (s : Storage) : bool :=
  match stored_faqs s with Some b => b | None => true end.

Definition prefs_last_update (s : Storage) : Z :=
  match stored_last_update s with Some t => t | None => 0%Z end.

Inductive call :=
| TabsQuery
| StorageSetLastUpdate (t : Z)
| TabsCreate (url : string) (active : bool) (index : option Z).

(** [(Date.now() - prefs['last-update']) / 1000 / 60 / 60 / 24 > 45]. *)
Definition doUpdate (now last : Z) : bool :=
  negb (QArith_base.Qle_bool
          (QArith_base.Qdiv
             (QArith_base.Qdiv
                (QArith_base.Qdiv
                   (QArith_base.Qdiv (QArith_base.inject_Z (now - last))
                                     (QArith_base.inject_Z 1000))
                   (QArith_base.inject_Z 60))
                (QArith_base.inject_Z 60))
             (QArith_base.inject_Z 24))
          (QArith_base.inject_Z 45)).

(** [previousVersion !== version]. *)
Definition changed (previous : option string) (current : string) : bool :=
  match previous with
  | Some p => negb (p =? current)
  | None => true
  end.

(** [page + '?version=' + version
     + (previousVersion ? '&p=' + previousVersion : '') + '&type=' + reason]. *)
Definition faq_url (m : Manifest) (d : Details) : string :=
  homepage_url m ++ "?version=" ++ version m
  ++ match previousVersion d with
     | Some p => if p =? "" then "" else "&p=" ++ p
     | None => ""
     end
  ++ "&type=" ++ reason d.

(** [...(tbs && tbs.length && {index: tbs[0].index + 1})]; [tbs] holds the
    [index] of each tab the query found. *)
Definition next_to (tbs : option (list Z)) : option Z :=
  match tbs with
  | Some (first :: _) => Some (first + 1)%Z
  | _ => None
  end.

(** One [onInstalled] event.  [webdriver] is [navigator.webdriver === true]
    (the listener is then not registered); [now] and [later] are the two
    readings of [Date.now()]. *)
Definition onInstalled (webdriver : bool) (m : Manifest) (installType : string)
    (now later : Z) (tbs : option (list Z)) (d : Details) (s : Storage)
  : Storage * list call :=
  if webdriver then (s, [])
  else if negb (installType =? "normal") then (s, [])
  else if (reason d =? "install") || (prefs_faqs s && (reason d =? "update")) then
    if doUpdate now (prefs_last_update s)
       && changed (previousVersion d) (version m)
    then ({| stored_faqs := stored_faqs s; stored_last_update := Some later |},
          [ TabsQuery;
            StorageSetLastUpdate later;
            TabsCreate (faq_url m d) (reason d =? "install") (next_to tbs) ])
    else (s, [])
  else (s, []).

(** 45 days, in milliseconds. *)
Definition forty_five_days : Z := 3888000000.

End Faqs.

(* ------------------------------------------------------------------ *)
(** ** The popup: the playlist kept in [chrome.storage.local] *)

Module Popup.
Import JS.
Local Open Scope string_scope.
Local Open Scope list_scope.

(** An entry of ['video-playlist']. *)
Record Entry := {
  url : string;
  title : string;
  timestamp : number;
  added : string
}.

(** [currentTab.url] and [currentTab.title]. *)
Record Tab := {
  tab_url : string;
  tab_title : string
}.

Inductive effect :=
| Alert (message : string)
| StorageSet (playlist : list Entry)
| Render (playlist : list Entry)          (* [loadPlaylist()] *)
| InjectContentScript
| TabsCreate (url : string)
| SendMessage (delay : N) (request : Content.Request).

(** [response.currentTime || 0]. *)
Definition or_zero (n : number) : number :=
  if truthy (Number n) then n else Num 0.

(** [handleVideoInfo(response)]; [iso] is [new Date().toISOString()]. *)
Definition handleVideoInfo (currentTab : Tab) (iso : string)
    (response : option Content.Response) (playlist : list Entry)
  : list Entry * list effect :=
  match response with
  | Some (Content.Success currentTime _ _) =>
      let videoInfo := {| url := tab_url currentTab;
                          title := tab_title currentTab;
                          timestamp := or_zero currentTime;
                          added := iso |} in
      if negb (existsb (fun v => url v =? url videoInfo) playlist) then
        (playlist ++ [videoInfo],
         [ StorageSet (playlist ++ [videoInfo]);
           Render (playlist ++ [videoInfo]) ])
      else (playlist, [ Alert "This video is already in your playlist" ])
  | _ => (playlist, [ Alert "No video found on current page" ])
  end.

(** The response a content script's listener hands back. *)
Definition delivered (effects : list (N * Content.effect))
  : option Content.Response :=
  match effects with
  | (_, Content.SendResponse r) :: _ => Some r
  | _ => None
  end.

Definition getVideoInfo : Content.Request :=
  {| Content.action := "getVideoInfo"; Content.timestamp := None |}.

Definition ask (page : option Content.Env) : option Content.Response :=
  match page with
  | Some env => delivered (Content.effects env getVideoInfo)
  | None => None
  end.

(** [addCurrentVideo()].  [tabs] is the active tab, if any; [page] is the
    tab's content script, [None] when the message cannot be delivered
    ([chrome.runtime.lastError]); [injected] is the content script that
    answers the second message, sent after the script was injected. *)
Definition addCurrentVideo (tabs : list Tab)
    (page injected : option Content.Env) (iso : string) (playlist : list Entry)
  : list Entry * list effect :=
  match tabs with
  | [] => (playlist, [])
  | currentTab :: _ =>
      match page with
      | Some _ => handleVideoInfo currentTab iso (ask page) playlist
      | None =>
          let (playlist', effects) :=
            handleVideoInfo currentTab iso (ask injected) playlist in
          (playlist', InjectContentScript :: effects)
      end
  end.

(** [playlist.splice(index, 1)]. *)
Definition splice1 (index : nat) (playlist : list Entry) : list Entry :=
  firstn index playlist ++ skipn (S index) playlist.

Definition removeVideo (index : nat) (playlist : list Entry)
  : list Entry * list effect :=
  (splice1 index playlist,
   [ StorageSet (splice1 index playlist); Render (splice1 index playlist) ]).

(** [clearPlaylist()]; [confirmed] is what [confirm(...)] returns. *)
Definition clearPlaylist (confirmed : bool) (playlist : list Entry)
  : list Entry * list effect :=
  if confirmed then ([], [ StorageSet []; Render [] ]) else (playlist, []).

(** [pipVideo(index)]: the tab is created, and 3 seconds later the
    message is sent to it. *)
Definition pipVideo (index : nat) (playlist : list Entry) : list effect :=
  match nth_error playlist index with
  | Some video =>
      [ TabsCreate (url video);
        SendMessage 3000
          {| Content.action := "triggerPip";
             Content.timestamp := Some (timestamp video) |} ]
  | None => []
  end.

(** What the user does in the popup. *)
Inductive op :=
| Add (tabs : list Tab) (page injected : option Content.Env) (iso : string)
| Remove (index : nat)
| Clear (confirmed : bool).

Definition step (playlist : list Entry) (o : op) : list Entry :=
  match o with
  | Add tabs page injected iso =>
      fst (addCurrentVideo tabs page injected iso playlist)
  | Remove index => fst (removeVideo index playlist)
  | Clear confirmed => fst (clearPlaylist confirmed playlist)
  end.

Definition run (ops : list op) (playlist : list Entry) : list Entry :=
  fold_left step ops playlist.

End Popup.

(* ------------------------------------------------------------------ *)
(** ** More concrete inputs *)

Module Cases.
Local Open Scope string_scope.
Local Open Scope list_scope.

(** A page the guard function cannot be injected into. *)
Definition guard_refused : Background.World :=
  {| Background.probe :=
       inr (Some [ {| Ranker.ir_frameId := 0;
                      Ranker.ir_result := Prober.func Scenario.one_video |} ]);
     Background.block_pip := true;
     Background.guard_injection := Some "Cannot access contents of the page";
     Background.activation_injection := None;
     Background.frame_at_activation := fun _ => Scenario.one_video;
     Background.request_pip := fun _ => None |}.

(** The video was removed between the probe and the activation. *)
Definition video_gone : Background.World :=
  {| Background.probe :=
       inr (Some [ {| Ranker.ir_frameId := 0;
                      Ranker.ir_result := Prober.func Scenario.one_video |} ]);
     Background.block_pip := false;
     Background.guard_injection := None;
     Background.activation_injection := None;
     Background.frame_at_activation :=
       fun _ => {| Prober.videos := None; Prober.queried := [] |};
     Background.request_pip := fun _ => None |}.

Definition the_winner : Candidate :=
  {| paused := false; connected := true; frameId := 0 |}.

(** A tab, a page whose only video is paused at 90 seconds, and a page
    whose only video is at its start. *)
Definition a_tab : Popup.Tab :=
  {| Popup.tab_url := "https://example.org/watch"; Popup.tab_title := "Example" |}.

Definition at_90 : Content.Env :=
  {| Content.page_at := fun _ =>
       {| Content.page_videos :=
            [ {| Content.v_id := 0; Content.v_paused := true;
                 Content.v_currentTime := JS.Num 90;
                 Content.v_duration := JS.Num 600 |} ];
          Content.pictureInPictureEnabled := true |};
     Content.pip_rejection := None |}.

Definition an_entry : Popup.Entry :=
  {| Popup.url := "https://example.org/watch"; Popup.title := "Example";
     Popup.timestamp := JS.Num 90; Popup.added := "2024-01-01T00:00:00.000Z" |}.

Definition an_update : Faqs.Details :=
  {| Faqs.reason := "update"; Faqs.previousVersion := Some "0.1.0" |}.

Definition a_manifest : Faqs.Manifest :=
  {| Faqs.homepage_url := "https://example.org/pip.html";
     Faqs.name := "PiP"; Faqs.version := "0.2.0" |}.

Definition no_storage : Faqs.Storage :=
  {| Faqs.stored_faqs := None; Faqs.stored_last_update := None |}.

(** The message the popup sends for an entry saved 90 seconds in. *)
Definition pip_at_90 : Content.Request :=
  {| Content.action := "triggerPip"; Content.timestamp := Some (JS.Num 90) |}.

End Cases.

(* ------------------------------------------------------------------ *)
(** ** Counting the overrides in the slot *)

Module Nesting.

(** How many proxies are wrapped around the original function. *)
Fixpoint overrides (f : ExitGuard.fn) : nat :=
  match f with
  | ExitGuard.Original _ => O
  | ExitGuard.Proxy target => S (overrides target)
  end.

(** A frame whose global [videos] holds [first] and [second], of which
    only [first] is in the document. *)
Definition tracked_pair (first second : Element) : Prober.Frame :=
  {| Prober.videos := Some [first; second]; Prober.queried := [first] |}.

End Nesting.

(* ------------------------------------------------------------------ *)
(** * Properties *)

(** ** Sorting with a comparator *)

Section SortFacts.
Variable A : Type.
Variable comparefn : A -> A -> JS.value.

Lemma insert_perm (x : A) (l : list A) :
  Permutation (x :: l) (JS.insert comparefn x l).
Proof.
  induction l as [|y t IH]; simpl.
  - apply Permutation_refl.
  - destruct (JS.sort_order (comparefn x y) <=? 0)%Z.
    + apply Permutation_refl.
    + eapply perm_trans; [apply perm_swap|].
      now apply perm_skip.
Qed.

Lemma sort_perm (l : list A) : Permutation l (JS.sort comparefn l).
Proof.
  induction l as [|x l IH]; simpl.
  - constructor.
  - eapply perm_trans; [apply perm_skip, IH|]. apply insert_perm.
Qed.

(** Stability where it shows: an array the comparator already finds in
    order, ties included, is left as it is. *)
Lemma sort_sorted_id (l : list A) :
  StronglySorted (JS.ordered comparefn) l -> JS.sort comparefn l = l.
Proof.
  induction 1 as [|x l Hl IH Hx]; simpl.
  - reflexivity.
  - rewrite IH. destruct l as [|y t]; simpl.
    + reflexivity.
    + inversion Hx as [|? ? Hxy _]; subst. unfold JS.ordered in Hxy.
      now replace (JS.sort_order (comparefn x y) <=? 0)%Z with true
        by (symmetry; now apply Z.leb_le).
Qed.

Hypothesis le_total :
  forall x y, JS.ordered comparefn x y \/ JS.ordered comparefn y x.
Hypothesis le_trans :
  forall x y z, JS.ordered comparefn x y -> JS.ordered comparefn y z ->
                JS.ordered comparefn x z.

Lemma insert_sorted (x : A) (l : list A) :
  StronglySorted (JS.ordered comparefn) l ->
  StronglySorted (JS.ordered comparefn) (JS.insert comparefn x l).
Proof.
  induction 1 as [|y t Ht IH Hy]; simpl.
  - repeat constructor.
  - destruct (JS.sort_order (comparefn x y) <=? 0)%Z eqn:E.
    + apply Z.leb_le in E.
      constructor; [now constructor|].
      constructor; [exact E|].
      eapply Forall_impl; [|exact Hy].
      intros z Hz. now apply le_trans with y.
    + apply Z.leb_gt in E.
      constructor; [exact IH|].
      assert (Hyx : JS.ordered comparefn y x).
      { destruct (le_total x y) as [H|H];
          [unfold JS.ordered in H; lia|exact H]. }
      eapply Permutation_Forall; [apply insert_perm|].
      now constructor.
Qed.

Lemma sort_sorted (l : list A) :
  StronglySorted (JS.ordered comparefn) (JS.sort comparefn l).
Proof.
  induction l as [|x l IH]; simpl.
  - constructor.
  - now apply insert_sorted.
Qed.
End SortFacts.

(** ** The ranking comparator on candidates *)

Section RankerFacts.
Import JS Ranker.
Local Open Scope Z_scope.

(** The number [sort] reads off [sorting a b], test by test. *)
Lemma sorting_order (a b : Candidate) :
  sort_order (sorting a b) =
  if negb (paused a) && paused b then -1
  else if negb (paused b) && paused a then 1
  else if negb (connected a) && connected b then -1
  else if negb (connected b) && connected a then 1
  else frameId a - frameId b.
Proof.
  unfold sorting; simpl.
  destruct (paused a), (paused b), (connected a), (connected b); reflexivity.
Qed.

Ltac by_cases a b :=
  rewrite ?sorting_order in *;
  destruct a as [[|] [|] ?], b as [[|] [|] ?]; simpl in *;
  try lia; try congruence.

Lemma in_order_refl (a : Candidate) : in_order a a.
Proof.
  unfold in_order, ordered. rewrite sorting_order.
  destruct a as [[|] [|] ?]; simpl; lia.
Qed.

Lemma in_order_total (a b : Candidate) : in_order a b \/ in_order b a.
Proof. unfold in_order, ordered. by_cases a b. Qed.

Lemma in_order_trans (a b c : Candidate) :
  in_order a b -> in_order b c -> in_order a c.
Proof.
  unfold in_order, ordered. rewrite !sorting_order.
  destruct a as [[|] [|] ?], b as [[|] [|] ?], c as [[|] [|] ?];
    simpl; lia.
Qed.

(** Two candidates the comparator cannot tell apart are the same record. *)
Lemma in_order_antisym (a b : Candidate) :
  in_order a b -> in_order b a -> a = b.
Proof.
  unfold in_order, ordered. rewrite !sorting_order.
  destruct a as [[|] [|] fa], b as [[|] [|] fb]; simpl; try lia;
    intros; replace fb with fa by lia; reflexivity.
Qed.

Lemma sort_is_outcome (l : list Candidate) : sort_outcome l (sort sorting l).
Proof.
  split.
  - apply sort_perm.
  - apply sort_sorted.
    + apply in_order_total.
    + apply in_order_trans.
Qed.

(** The head of a sorted array is in order with every element of it. *)
Lemma sorted_head_least (h : Candidate) (t : list Candidate) :
  StronglySorted in_order (h :: t) ->
  forall x, In x (h :: t) -> in_order h x.
Proof.
  intros Hs x Hx. inversion Hs as [|? ? _ Hall]; subst.
  destruct Hx as [<-|Hx].
  - apply in_order_refl.
  - rewrite Forall_forall in Hall. now apply Hall.
Qed.

Lemma outcome_head_unique (l s1 s2 : list Candidate) :
  sort_outcome l s1 -> sort_outcome l s2 -> shift s1 = shift s2.
Proof.
  intros [P1 S1] [P2 S2].
  assert (P : Permutation s1 s2)
    by (eapply perm_trans; [apply Permutation_sym; exact P1|exact P2]).
  destruct s1 as [|h1 t1], s2 as [|h2 t2]; simpl.
  - reflexivity.
  - now apply Permutation_nil in P.
  - apply Permutation_sym in P. now apply Permutation_nil in P.
  - f_equal. apply in_order_antisym.
    + apply (sorted_head_least S1).
      eapply Permutation_in; [apply Permutation_sym; exact P|now left].
    + apply (sorted_head_least S2).
      eapply Permutation_in; [exact P|now left].
Qed.
End RankerFacts.

(** ** Claims about the Candidate Ranker *)

Section RankerClaims.
Import JS Ranker.
Local Open Scope Z_scope.

(** C1, as stated, fails: in the scenario
    [[{paused:true,connected:true,frameId:3},
      {paused:true,connected:false,frameId:1}]] both candidates are paused,
    the comparator is positive on (connected, disconnected), and the
    winner is the disconnected candidate of frame 1. *)
Lemma connected_first_counterexample :
  paused Scenario.paused_attached = paused Scenario.paused_detached /\
  connected Scenario.paused_attached = true /\
  connected Scenario.paused_detached = false /\
  ~ ranks_ahead Scenario.paused_attached Scenario.paused_detached /\
  rank_and_select [Scenario.paused_attached; Scenario.paused_detached]
    = Some Scenario.paused_detached.
Proof.
  repeat split; try reflexivity.
  unfold ranks_ahead. rewrite sorting_order. simpl. lia.
Qed.

(** C1, amended: for every pair of candidates with equal paused status,
    the comparator ranks the candidate with [connected == false] ahead of
    the candidate with [connected == true], whatever their frame ids, and
    of the two the disconnected one is the winner. *)
Theorem disconnected_first_on_equal_paused (a b : Candidate) :
  paused a = paused b -> connected a = true -> connected b = false ->
  ranks_ahead b a /\ ~ ranks_ahead a b /\
  rank_and_select [a; b] = Some b /\ rank_and_select [b; a] = Some b.
Proof.
  intros Hp Ha Hb.
  destruct a as [pa ca fa], b as [pb cb fb]; simpl in *; subst.
  unfold ranks_ahead, rank_and_select. rewrite !sorting_order. simpl.
  unfold sorting; simpl.
  destruct pb; simpl; repeat split; lia.
Qed.

Lemma disconnected_first_on_equal_paused_witness :
  paused Scenario.paused_attached = paused Scenario.paused_detached /\
  connected Scenario.paused_attached = true /\
  connected Scenario.paused_detached = false /\
  ranks_ahead Scenario.paused_detached Scenario.paused_attached.
Proof.
  split; [reflexivity|]. split; [reflexivity|]. split; [reflexivity|].
  apply (disconnected_first_on_equal_paused
           Scenario.paused_attached Scenario.paused_detached); reflexivity.
Defined.

(** C2, as stated, fails: on the three-frame scenario the winner's frame
    id is not 2. *)
Lemma three_frames_counterexample :
  option_map frameId (rank_and_select Scenario.three_frames) <> Some 2.
Proof. vm_compute. discriminate. Qed.

(** C2, amended: for the input list
    [[{paused:true,connected:true,frameId:0},
      {paused:false,connected:true,frameId:2},
      {paused:false,connected:false,frameId:1}]] the Candidate Ranker
    returns the playing, disconnected candidate with frameId 1. *)
Theorem three_frames_winner :
  rank_and_select Scenario.three_frames
  = Some {| paused := false; connected := false; frameId := 1 |}.
Proof. reflexivity. Qed.

(** C8: a candidate with [paused == false] and [connected == true] is
    ranked ahead of every candidate with [paused == true], whatever the
    paused candidate's [connected] and [frameId]; of the two, in either
    input order, the playing one is the winner. *)
Theorem playing_connected_ahead_of_paused (a b : Candidate) :
  paused a = false -> connected a = true -> paused b = true ->
  ranks_ahead a b /\ ~ ranks_ahead b a /\
  rank_and_select [a; b] = Some a /\ rank_and_select [b; a] = Some a.
Proof.
  intros Hp Hc Hb.
  destruct a as [pa ca fa], b as [pb cb fb]; simpl in *; subst.
  unfold ranks_ahead, rank_and_select. rewrite !sorting_order. simpl.
  unfold sorting; simpl.
  repeat split; lia.
Qed.

Lemma playing_connected_ahead_of_paused_witness :
  paused Scenario.playing_attached = false /\
  connected Scenario.playing_attached = true /\
  paused Scenario.paused_anywhere = true /\
  ranks_ahead Scenario.playing_attached Scenario.paused_anywhere.
Proof.
  split; [reflexivity|]. split; [reflexivity|]. split; [reflexivity|].
  apply (playing_connected_ahead_of_paused
           Scenario.playing_attached Scenario.paused_anywhere); reflexivity.
Defined.

(** C9: the winner is determined by the candidate list.  Whatever array
    two runs of the sort leave behind (each a permutation of the input
    that the comparator finds in order), both runs yield the same winner,
    and it is the one [rank_and_select] computes. *)
Theorem rank_and_select_deterministic (l s1 s2 : list Candidate) :
  sort_outcome l s1 -> sort_outcome l s2 ->
  shift s1 = shift s2 /\ shift s1 = rank_and_select l.
Proof.
  intros H1 H2. split.
  - exact (outcome_head_unique H1 H2).
  - exact (outcome_head_unique H1 (sort_is_outcome l)).
Qed.

Lemma rank_and_select_deterministic_witness :
  sort_outcome [Scenario.paused_attached; Scenario.paused_detached]
               [Scenario.paused_detached; Scenario.paused_attached] /\
  shift [Scenario.paused_detached; Scenario.paused_attached]
    = rank_and_select [Scenario.paused_attached; Scenario.paused_detached].
Proof.
  assert (H : sort_outcome [Scenario.paused_attached; Scenario.paused_detached]
                [Scenario.paused_detached; Scenario.paused_attached]).
  { split.
    - apply perm_swap.
    - repeat constructor. vm_compute. discriminate. }
  split; [exact H|].
  apply (rank_and_select_deterministic H H).
Defined.
End RankerClaims.

(** ** The in-frame copy of the comparator *)

Section ActivatorClaims.
Import JS.
Local Open Scope Z_scope.

(** On objects that carry [paused], [connected] and [frameId], the copy
    orders two candidates of one frame as the ranker's comparator does. *)
Lemma copies_agree_on_candidates (a b : Candidate) :
  frameId a = frameId b ->
  sort_order (Activator.sorting a b) = sort_order (Ranker.sorting a b).
Proof.
  intros Hf. unfold Activator.sorting, Ranker.sorting; simpl.
  destruct (paused a), (paused b), (connected a), (connected b); simpl;
    try reflexivity; unfold sort_order, sub; simpl; lia.
Qed.

(** On the elements it is applied to, only [paused] is ever looked at. *)
Lemma in_frame_order (a b : Element) :
  sort_order (Activator.sorting a b) =
  if negb (el_paused a) && el_paused b then -1
  else if negb (el_paused b) && el_paused a then 1
  else 0.
Proof.
  unfold Activator.sorting; simpl.
  destruct (el_paused a), (el_paused b); reflexivity.
Qed.

(** The two comparators are not applied to the same objects: the ranker
    sorts probed candidates, the activation function sorts the elements.
    In a frame with two playing videos, one attached and one detached, the
    ranker's comparator orders the probed candidates (detached first) while
    the in-frame comparator ties the two elements; the ranker's winner is
    the detached video and the activation function picks the attached one. *)
Theorem in_frame_comparator_diverges :
  frameId (Scenario.probed Scenario.attached)
    = frameId (Scenario.probed Scenario.detached) /\
  sort_order (Ranker.sorting (Scenario.probed Scenario.attached)
                             (Scenario.probed Scenario.detached)) = 1 /\
  sort_order (Activator.sorting Scenario.attached Scenario.detached) = 0 /\
  Ranker.rank_and_select (Ranker.candidates (Some Scenario.two_playing_probe))
    = Some (Scenario.probed Scenario.detached) /\
  Activator.select Scenario.two_playing = Some Scenario.attached.
Proof. repeat split. Qed.

(** C4: for every pair of candidates of one frame, the comparator of the
    activation function and the ranker's comparator return the same
    ordering result.  What they return is the same value, except where the
    ranker's final [else] gives the difference of the two equal frame ids,
    0, and the copy, having no final [else], gives [undefined], which a sort
    reads as 0; so sorting the pair with either comparator gives the same
    array. *)
Theorem in_frame_comparator_agrees (a b : Candidate) :
  frameId a = frameId b ->
  sort_order (Activator.sorting a b) = sort_order (Ranker.sorting a b) /\
  (Activator.sorting a b = Ranker.sorting a b \/
   Activator.sorting a b = Undefined /\ Ranker.sorting a b = Number (Num 0)) /\
  JS.sort Activator.sorting [a; b] = JS.sort Ranker.sorting [a; b].
Proof.
  intros Hf. split; [now apply copies_agree_on_candidates|]. split.
  - unfold Activator.sorting, Ranker.sorting; simpl.
    destruct (paused a), (paused b), (connected a), (connected b); simpl;
      try (left; reflexivity);
      right; (split; [reflexivity|]); unfold sub; simpl;
      rewrite Hf, Z.sub_diag; reflexivity.
  - simpl. now rewrite (copies_agree_on_candidates a b Hf).
Qed.

Lemma in_frame_comparator_agrees_witness :
  frameId (Scenario.probed Scenario.attached)
    = frameId (Scenario.probed Scenario.detached) /\
  sort_order (Activator.sorting (Scenario.probed Scenario.attached)
                                (Scenario.probed Scenario.detached))
  = sort_order (Ranker.sorting (Scenario.probed Scenario.attached)
                               (Scenario.probed Scenario.detached)).
Proof.
  split; [reflexivity|].
  exact (proj1 (in_frame_comparator_agrees
                  (Scenario.probed Scenario.attached)
                  (Scenario.probed Scenario.detached) eq_refl)).
Defined.
End ActivatorClaims.

(** ** Claims about the Exit-Guard Installer *)

Section ExitGuardClaims.
Import ExitGuard.
Local Open Scope N_scope.

Lemma run_timers_none (fuel : nat) (until : N) (s : frame) :
  timers s = [] -> run_timers fuel until s = s.
Proof. intros H. destruct fuel; simpl; [|rewrite H]; reflexivity. Qed.

Lemma run_timers_one (until : N) (s : frame) (h : nat) (due : N) :
  timers s = [(h, due)] ->
  run_timers 1 until s = if due <=? until then fire h due s else s.
Proof. intros H. simpl. rewrite H. simpl. now destruct (due <=? until). Qed.

Lemma fresh_guard_state (f0 : nat) (t0 : N) (h0 : nat) :
  guard_state f0 (fresh f0 t0 h0).
Proof. now apply never_installed. Qed.

Lemma install_guard_state (f0 : nat) (s : frame) :
  guard_state f0 s -> guard_state f0 (install s).
Proof.
  intros [Hp Ht He | h Hp Ht He | h due g Hp Ht He Hlo Hhi];
    apply guarding with (h := next_handle s) (due := now s + 2000)
                        (g := exitPictureInPicture s);
    unfold install; rewrite Hp, Ht; simpl;
    rewrite ?He, ?Nat.eqb_refl; simpl; try reflexivity; lia.
Qed.

Lemma advance_guard_state (f0 : nat) (d : N) (s : frame) :
  guard_state f0 s -> guard_state f0 (advance d s).
Proof.
  intros [Hp Ht He | h Hp Ht He | h due g Hp Ht He Hlo Hhi]; unfold advance.
  - rewrite run_timers_none by exact Ht. now apply never_installed.
  - rewrite run_timers_none by exact Ht. now apply expired with h.
  - rewrite Ht; simpl List.length. rewrite (run_timers_one _ _ Ht).
    destruct (due <=? now s + d) eqn:E.
    + apply expired with h; simpl; rewrite ?Hp, ?Ht; simpl;
        rewrite ?Nat.eqb_refl; reflexivity.
    + apply N.leb_gt in E.
      apply guarding with h due g; simpl; try assumption; lia.
Qed.

Lemma page_exit_guard_state (f0 : nat) (s : frame) :
  guard_state f0 s -> guard_state f0 (page_exit s).
Proof.
  intros [Hp Ht He | h Hp Ht He | h due g Hp Ht He Hlo Hhi].
  - now apply never_installed.
  - now apply expired with h.
  - now apply guarding with h due g.
Qed.

Lemma run_guard_state (f0 : nat) (ops : list op) (s : frame) :
  guard_state f0 s -> guard_state f0 (run ops s).
Proof.
  revert s. induction ops as [|o ops IH]; intros s Hs; simpl.
  - exact Hs.
  - apply IH. destruct o; simpl.
    + now apply install_guard_state.
    + now apply advance_guard_state.
    + now apply page_exit_guard_state.
Qed.

(** What a wait does to a frame with nothing pending, with a timeout that
    is due within the wait, and with one that is not. *)
Lemma advance_idle (d : N) (s : frame) :
  timers s = [] ->
  advance d s =
  {| now := now s + d;
     exitPictureInPicture := exitPictureInPicture s;
     pipobj := pipobj s;
     timers := [];
     next_handle := next_handle s;
     restorations := restorations s;
     calls := calls s |}.
Proof.
  intros Ht. unfold advance. rewrite run_timers_none by exact Ht.
  now rewrite Ht.
Qed.

Lemma advance_fires (d : N) (s : frame) (h : nat) (due : N) (po : pipobj_t) :
  timers s = [(h, due)] -> pipobj s = Some po -> due <= now s + d ->
  advance d s =
  {| now := now s + d;
     exitPictureInPicture := pointer po;
     pipobj := Some po;
     timers := [];
     next_handle := next_handle s;
     restorations := restorations s ++ [due];
     calls := calls s |}.
Proof.
  intros Ht Hp Hd. unfold advance. rewrite Ht; simpl List.length.
  rewrite (run_timers_one _ _ Ht).
  replace (due <=? now s + d) with true by (symmetry; now apply N.leb_le).
  simpl. rewrite Hp, Ht. simpl. now rewrite Nat.eqb_refl.
Qed.

Lemma advance_keeps (d : N) (s : frame) (h : nat) (due : N) :
  timers s = [(h, due)] -> now s + d < due ->
  advance d s =
  {| now := now s + d;
     exitPictureInPicture := exitPictureInPicture s;
     pipobj := pipobj s;
     timers := [(h, due)];
     next_handle := next_handle s;
     restorations := restorations s;
     calls := calls s |}.
Proof.
  intros Ht Hd. unfold advance. rewrite Ht; simpl List.length.
  rewrite (run_timers_one _ _ Ht).
  replace (due <=? now s + d) with false by (symmetry; now apply N.leb_gt).
  now rewrite Ht.
Qed.

Lemma quiet_run (f0 : nat) (ops : list op) :
  existsb is_install ops = false ->
  forall s, guard_state f0 s -> quiet_outcome f0 ops s.
Proof.
  induction ops as [|o ops IH]; intros Hq s G.
  - unfold quiet_outcome.
    destruct G as [Hp Ht He | h Hp Ht He | h due g Hp Ht He Hlo Hhi];
      rewrite Ht; simpl.
    + now rewrite Ht.
    + now rewrite Ht.
    + replace (due <=? now s + 0) with false
        by (symmetry; apply N.leb_gt; lia).
      now rewrite Ht.
  - destruct o as [|d|]; simpl in Hq; [discriminate| |].
    + (* a wait *)
      specialize (IH Hq (advance d s) (advance_guard_state d G)).
      unfold quiet_outcome in *. simpl run. simpl waited.
      destruct G as [Hp Ht He | h Hp Ht He | h due g Hp Ht He Hlo Hhi].
      * rewrite (advance_idle d s Ht) in IH |- *. rewrite Ht.
        simpl in IH. exact IH.
      * rewrite (advance_idle d s Ht) in IH |- *. rewrite Ht.
        simpl in IH. exact IH.
      * rewrite Ht. destruct (N.le_gt_cases due (now s + d)) as [Hd|Hd].
        -- rewrite (advance_fires d s Ht Hp Hd) in IH |- *. simpl in IH.
           replace (due <=? now s + (d + waited ops)) with true
             by (symmetry; apply N.leb_le; lia).
           exact IH.
        -- rewrite (advance_keeps d s Ht Hd) in IH |- *. simpl in IH.
           rewrite N.add_assoc. exact IH.
    + (* a call by the page *)
      specialize (IH Hq (page_exit s) (page_exit_guard_state G)).
      unfold quiet_outcome in *. simpl run. simpl waited.
      simpl in IH. exact IH.
Qed.

Lemma guard_state_one_timer (f0 : nat) (s : frame) :
  guard_state f0 s -> (List.length (timers s) <= 1)%nat.
Proof.
  intros [_ Ht _ | h _ Ht _ | h due g _ Ht _ _ _]; rewrite Ht; simpl; lia.
Qed.

(** Every timeout due by the end of a wait has run: the fuel [advance]
    gives [run_timers] is enough. *)
Lemma advance_leaves_nothing_due (f0 : nat) (d : N) (s : frame) :
  guard_state f0 s ->
  forall h due, In (h, due) (timers (advance d s)) -> now s + d < due.
Proof.
  intros [Hp Ht He | h' Hp Ht He | h' due' g Hp Ht He Hlo Hhi] h due;
    unfold advance.
  - rewrite run_timers_none by exact Ht. simpl. now rewrite Ht.
  - rewrite run_timers_none by exact Ht. simpl. now rewrite Ht.
  - rewrite Ht; simpl List.length. rewrite (run_timers_one _ _ Ht).
    destruct (due' <=? now s + d) eqn:E; simpl.
    + rewrite Ht. simpl. rewrite Nat.eqb_refl. intros [].
    + apply N.leb_gt in E. rewrite Ht. intros [H|[]].
      injection H as _ <-. exact E.
Qed.

(** The second installation wraps what is in the slot, which is the first
    installation's proxy: the proxies nest, and it is the timeout's callback,
    writing [self.pipobj.pointer] back, that removes both at once. *)
Remark second_install_wraps_the_proxy (f0 : nat) (t0 : N) (h0 : nat) (d1 : N) :
  d1 < 2000 ->
  exitPictureInPicture (install (advance d1 (install (fresh f0 t0 h0))))
  = Proxy (Proxy (Original f0)).
Proof.
  intros Hd.
  assert (E1 : (t0 + 2000 <=? t0 + d1) = false) by (apply N.leb_gt; lia).
  unfold advance. simpl. now rewrite E1.
Qed.

(** C5, as stated, fails in its last clause: after two installations 700
    ms apart the slot holds the second installation's proxy around the
    first installation's proxy, two overrides at once. *)
Lemma one_override_counterexample :
  700 < 2000 /\
  exitPictureInPicture (install (advance 700 (install (fresh 0 1000 5))))
  = Proxy (Proxy (Original 0)) /\
  ~ (Nesting.overrides
       (exitPictureInPicture
          (install (advance 700 (install (fresh 0 1000 5))))) <= 1)%nat.
Proof.
  split; [reflexivity|]. split; [reflexivity|].
  simpl. lia.
Qed.

(** C5, amended: when the guard is installed in a frame and installed
    again [d1 < 2000] ms later, the first timeout is cancelled: the only
    pending timeout is the second installation's, due 2000 ms after it;
    whatever happens next short of another installation, the restoration
    runs once, at that time, and not before, and puts the original function
    back; in every state the frame can reach at most one expiry timeout is
    pending.  The overrides themselves nest: the second installation wraps
    the first one's proxy, and in every reachable state the slot holds the
    original function when no timeout is pending and a proxy when one is. *)
Theorem exit_guard_debounce (f0 : nat) (t0 : N) (h0 : nat) (d1 : N) :
  d1 < 2000 ->
  let s1 := install (fresh f0 t0 h0) in
  let s2 := install (advance d1 s1) in
  timers s1 = [(h0, t0 + 2000)] /\
  timers s2 = [(S h0, t0 + d1 + 2000)] /\
  (forall later, existsb is_install later = false ->
     restorations (run later s2)
     = if 2000 <=? waited later then [t0 + d1 + 2000] else []) /\
  (forall later, existsb is_install later = false -> 2000 <= waited later ->
     exitPictureInPicture (run later s2) = Original f0) /\
  (forall ops, (List.length (timers (run ops (fresh f0 t0 h0))) <= 1)%nat) /\
  exitPictureInPicture s2 = Proxy (Proxy (Original f0)) /\
  (forall ops,
     timers (run ops (fresh f0 t0 h0)) = [] /\
     exitPictureInPicture (run ops (fresh f0 t0 h0)) = Original f0
     \/
     exists h due g,
       timers (run ops (fresh f0 t0 h0)) = [(h, due)] /\
       exitPictureInPicture (run ops (fresh f0 t0 h0)) = Proxy g).
Proof.
  intros Hd s1 s2.
  assert (W2 : exitPictureInPicture s2 = Proxy (Proxy (Original f0)))
    by exact (second_install_wraps_the_proxy f0 t0 h0 Hd).
  assert (E1 : (t0 + 2000 <=? t0 + d1) = false) by (apply N.leb_gt; lia).
  assert (T2 : timers s2 = [(S h0, t0 + d1 + 2000)]).
  { unfold s2, s1, advance. simpl. rewrite E1. simpl.
    now rewrite Nat.eqb_refl. }
  assert (N2 : now s2 = t0 + d1) by reflexivity.
  assert (R2 : restorations s2 = []).
  { unfold s2, s1, advance. simpl. rewrite E1. reflexivity. }
  assert (G2 : guard_state f0 s2).
  { apply install_guard_state, advance_guard_state, install_guard_state,
      fresh_guard_state. }
  split; [reflexivity|].
  clearbody s2. clear s1.
  assert (Q : forall later, existsb is_install later = false ->
            if 2000 <=? waited later
            then restorations (run later s2) = [t0 + d1 + 2000] /\
                 exitPictureInPicture (run later s2) = Original f0
            else restorations (run later s2) = []).
  { intros later Hq. pose proof (@quiet_run f0 later Hq s2 G2) as O.
    unfold quiet_outcome in O. rewrite T2, N2, R2 in O.
    destruct (2000 <=? waited later) eqn:E.
    - apply N.leb_le in E.
      replace (t0 + d1 + 2000 <=? t0 + d1 + waited later) with true in O
        by (symmetry; apply N.leb_le; lia).
      simpl in O. tauto.
    - apply N.leb_gt in E.
      replace (t0 + d1 + 2000 <=? t0 + d1 + waited later) with false in O
        by (symmetry; apply N.leb_gt; lia).
      tauto. }
  repeat split.
  - exact T2.
  - intros later Hq. specialize (Q later Hq).
    destruct (2000 <=? waited later); tauto.
  - intros later Hq Hw. specialize (Q later Hq).
    replace (2000 <=? waited later) with true in Q
      by (symmetry; now apply N.leb_le).
    tauto.
  - intros ops. apply guard_state_one_timer with f0.
    apply run_guard_state, fresh_guard_state.
  - exact W2.
  - intros ops.
    destruct (run_guard_state ops (fresh_guard_state f0 t0 h0))
      as [Hp Ht He | h Hp Ht He | h due g Hp Ht He Hlo Hhi].
    + left. now split.
    + left. now split.
    + right. exists h, due, g. now split.
Qed.

Lemma exit_guard_debounce_witness :
  700 < 2000 /\
  timers (install (advance 700 (install (fresh 0 1000 5)))) = [(6%nat, 3700)].
Proof.
  split; [reflexivity|].
  apply (exit_guard_debounce 0 1000 5 (d1 := 700)). reflexivity.
Defined.

(** C6: in whatever state a frame is after any sequence of
    installations, waits and calls by the page, once 2000 ms or more pass
    with no further installation the slot holds the function that was
    there before the first installation, no timeout is pending, and a call
    through the slot runs that function again; [self.pipobj.pointer] is
    never anything but that function. *)
Theorem guard_expiry_restores_original
    (f0 : nat) (t0 : N) (h0 : nat) (ops later : list op) :
  existsb is_install later = false -> 2000 <= waited later ->
  let s := run ops (fresh f0 t0 h0) in
  exitPictureInPicture (run later s) = Original f0 /\
  timers (run later s) = [] /\
  call (exitPictureInPicture (run later s)) = Executed f0 /\
  (forall po, pipobj s = Some po -> pointer po = Original f0).
Proof.
  intros Hq Hw s.
  assert (G : guard_state f0 s) by apply run_guard_state, fresh_guard_state.
  assert (H : exitPictureInPicture (run later s) = Original f0 /\
              timers (run later s) = []).
  { pose proof (@quiet_run f0 later Hq s G) as O. unfold quiet_outcome in O.
    destruct G as [Hp Ht He | h Hp Ht He | h due g Hp Ht He Hlo Hhi];
      rewrite Ht in O; [tauto|tauto|].
    replace (due <=? now s + waited later) with true in O
      by (symmetry; apply N.leb_le; lia).
    tauto. }
  destruct H as [He Ht]. repeat split.
  - exact He.
  - exact Ht.
  - now rewrite He.
  - intros po Hpo.
    destruct G as [Hp _ _ | h Hp _ _ | h due g Hp _ _ _ _];
      rewrite Hp in Hpo; [discriminate| |]; now injection Hpo as <-.
Qed.

Lemma guard_expiry_restores_original_witness :
  existsb is_install [Wait 1000; PageExit; Wait 1500] = false /\
  2000 <= waited [Wait 1000; PageExit; Wait 1500] /\
  exitPictureInPicture
    (run [Wait 1000; PageExit; Wait 1500]
       (run [Install; Wait 500; Install; PageExit] (fresh 0 1000 5)))
  = Original 0.
Proof.
  assert (W : 2000 <= waited [Wait 1000; PageExit; Wait 1500])
    by (vm_compute; discriminate).
  split; [reflexivity|]. split; [exact W|].
  exact (proj1 (@guard_expiry_restores_original 0 1000 5
                  [Install; Wait 500; Install; PageExit]
                  [Wait 1000; PageExit; Wait 1500] eq_refl W)).
Defined.
End ExitGuardClaims.

(** ** Claims about [triggerPictureInPicture] *)

Section PipelineClaims.
Import Ranker Background.
Local Open Scope string_scope.
Local Open Scope list_scope.

(** C7: when the probe resolves and no frame contributed a candidate,
    there is no winner and the invocation does exactly this: the probe,
    the warning, badge text "E" and title "No player is detected"; neither
    the guard nor the activation function is injected. *)
Theorem no_candidate_no_player
    (w : World) (tabId : Z) (r : option (list InjectionResult)) :
  probe w = inr r -> candidates r = [] ->
  rank_and_select (candidates r) = None /\
  triggerPictureInPicture w tabId =
    [ ExecuteScript tabId AllFrames ProbeFunc;
      ConsoleWarn "No player is detected";
      SetBadgeText tabId "E";
      SetTitle tabId "No player is detected" ] /\
  existsb is_guard_or_activation (triggerPictureInPicture w tabId) = false.
Proof.
  intros Hp Hc.
  assert (T : triggerPictureInPicture w tabId =
    [ ExecuteScript tabId AllFrames ProbeFunc;
      ConsoleWarn "No player is detected";
      SetBadgeText tabId "E";
      SetTitle tabId "No player is detected" ]).
  { unfold triggerPictureInPicture, triggerPictureInPicture_body, execute_probe.
    rewrite Hp. simpl. rewrite Hc. reflexivity. }
  split; [now rewrite Hc|]. split; [exact T|]. now rewrite T.
Qed.

Lemma no_candidate_no_player_witness :
  probe Scenario.nothing_found
    = inr (Some [ {| ir_frameId := 0; ir_result := [] |} ]) /\
  candidates (Some [ {| ir_frameId := 0; ir_result := [] |} ]) = [] /\
  existsb is_guard_or_activation
    (triggerPictureInPicture Scenario.nothing_found 4) = false.
Proof.
  split; [reflexivity|]. split; [reflexivity|].
  apply (@no_candidate_no_player Scenario.nothing_found 4
           (Some [ {| ir_frameId := 0; ir_result := [] |} ]));
    reflexivity.
Defined.

(** C3, as stated, fails: with one playing video whose request the
    browser refuses, the invocation ends with the alert in the frame; no
    badge text and no title is set. *)
Lemma rejection_on_badge_counterexample :
  request_pip Scenario.request_refused Scenario.attached
    = Some Scenario.refusal /\
  triggerPictureInPicture Scenario.request_refused 4 =
    [ ExecuteScript 4 AllFrames ProbeFunc;
      SetIcon 4;
      StorageGet;
      ExecuteScript 4 (FrameIds [0%Z]) GuardFunc;
      GuardInstalled 0;
      ExecuteScript 4 (FrameIds [0%Z]) ActivationFunc;
      RequestPictureInPicture 0 Scenario.attached;
      Alert 0 Scenario.refusal ] /\
  ~ In (SetBadgeText 4 "E") (triggerPictureInPicture Scenario.request_refused 4) /\
  ~ In (SetTitle 4 Scenario.refusal)
       (triggerPictureInPicture Scenario.request_refused 4).
Proof.
  assert (T : triggerPictureInPicture Scenario.request_refused 4 =
    [ ExecuteScript 4 AllFrames ProbeFunc;
      SetIcon 4;
      StorageGet;
      ExecuteScript 4 (FrameIds [0%Z]) GuardFunc;
      GuardInstalled 0;
      ExecuteScript 4 (FrameIds [0%Z]) ActivationFunc;
      RequestPictureInPicture 0 Scenario.attached;
      Alert 0 Scenario.refusal ]) by reflexivity.
  split; [reflexivity|]. split; [exact T|].
  rewrite T. split; intros H; simpl in H;
    repeat (destruct H as [H|H]; [discriminate H|]); exact H.
Qed.

(** C3, amended: whenever the request issued on a video in the winning
    frame is rejected, the rejection is handled at the call and shown to
    the user by an alert in that frame carrying the rejection's message;
    the invocation sets no badge text and no title. *)
Theorem rejection_is_alerted
    (w : World) (tabId frame : Z) (video : Element) (message : string) :
  In (RequestPictureInPicture frame video) (triggerPictureInPicture w tabId) ->
  request_pip w video = Some message ->
  In (Alert frame message) (triggerPictureInPicture w tabId) /\
  existsb is_badge_or_title (triggerPictureInPicture w tabId) = false.
Proof.
  unfold triggerPictureInPicture, triggerPictureInPicture_body,
    execute_probe, execute_guard, execute_activation, activation_func.
  destruct (probe w) as [m|r]; simpl.
  - intros H; repeat (destruct H as [H|H]; [discriminate H|]); destruct H.
  - destruct (rank_and_select (candidates r)) as [winner|]; simpl.
    2: { intros H; repeat (destruct H as [H|H]; [discriminate H|]); destruct H. }
    destruct (block_pip w), (guard_injection w), (activation_injection w);
      simpl;
      try (intros H; repeat (destruct H as [H|H]; [discriminate H|]);
           now destruct H);
      (destruct (Activator.select (frame_at_activation w (frameId winner)))
         as [v|]; simpl;
       [ destruct (request_pip w v) as [m|] eqn:E; simpl
       | intros H; repeat (destruct H as [H|H]; [discriminate H|]);
         now destruct H ]);
      intros H R;
      repeat (destruct H as [H|H]; try discriminate H);
      try (now destruct H);
      injection H as <- <-; rewrite E in R;
      try discriminate R; injection R as <-;
      (split; [simpl; tauto | reflexivity]).
Qed.

Lemma rejection_is_alerted_witness :
  In (RequestPictureInPicture 0 Scenario.attached)
     (triggerPictureInPicture Scenario.request_refused 4) /\
  request_pip Scenario.request_refused Scenario.attached
    = Some Scenario.refusal /\
  In (Alert 0 Scenario.refusal)
     (triggerPictureInPicture Scenario.request_refused 4).
Proof.
  assert (H : In (RequestPictureInPicture 0 Scenario.attached)
                (triggerPictureInPicture Scenario.request_refused 4))
    by (vm_compute; tauto).
  split; [exact H|]. split; [reflexivity|].
  apply (rejection_is_alerted Scenario.request_refused 4 0
           Scenario.attached H eq_refl).
Defined.
End PipelineClaims.

(** ** Claims about the content script *)

Section ContentClaims.
Import JS Content.
Local Open Scope string_scope.
Local Open Scope list_scope.

(** C10: for a [triggerPip] message whose [timestamp] is absent or 0 the
    listener does nothing (no seek, no [play], no PiP request); and
    whenever it does anything, the [timestamp] is a number other than 0. *)
Theorem triggerPip_needs_timestamp (env : Env) (request : Request) :
  action request = "triggerPip" ->
  ((timestamp request = None \/ timestamp request = Some (Num 0)) ->
   effects env request = []) /\
  (effects env request <> [] ->
   exists z, timestamp request = Some (Num z) /\ z <> 0%Z).
Proof.
  intros Ha. unfold effects, listener, get_timestamp. rewrite Ha. simpl.
  split.
  - intros [-> | ->]; reflexivity.
  - destruct (timestamp request) as [[z|]|]; simpl.
    + destruct (Z.eqb_spec z 0) as [->|Hz]; simpl.
      * intros H; now elim H.
      * intros _. now exists z.
    + intros H; now elim H.
    + intros H; now elim H.
Qed.

Lemma triggerPip_needs_timestamp_witness :
  action Scenario.pip_at_zero = "triggerPip" /\
  timestamp Scenario.pip_at_zero = Some (Num 0) /\
  effects Scenario.a_page Scenario.pip_at_zero = [].
Proof.
  split; [reflexivity|]. split; [reflexivity|].
  apply (triggerPip_needs_timestamp Scenario.a_page Scenario.pip_at_zero eq_refl).
  right. reflexivity.
Defined.
End ContentClaims.

(* ------------------------------------------------------------------ *)
(** * Further properties of the code *)

(** ** The ranker on whole candidate lists *)

Section RankerLists.
Import JS Ranker.
Local Open Scope Z_scope.

(** X1: [sorting] is a consistent comparator on candidates: swapping
    the arguments negates the result, it is 0 exactly on equal records, and
    "not after" is transitive. *)
Theorem sorting_consistent (a b c : Candidate) :
  sort_order (sorting b a) = - sort_order (sorting a b) /\
  (sort_order (sorting a b) = 0 <-> a = b) /\
  (in_order a b -> in_order b c -> in_order a c).
Proof.
  split; [|split].
  - rewrite !sorting_order.
    destruct a as [[|] [|] fa], b as [[|] [|] fb]; simpl; lia.
  - split.
    + intros H. apply in_order_antisym; unfold in_order, ordered.
      * lia.
      * assert (E : sort_order (sorting b a) = - sort_order (sorting a b)).
        { rewrite !sorting_order.
          destruct a as [[|] [|] fa], b as [[|] [|] fb]; simpl; lia. }
        lia.
    + intros <-. rewrite sorting_order.
      destruct a as [[|] [|] fa]; simpl; lia.
  - apply in_order_trans.
Qed.

Lemma select_least (l : list Candidate) :
  (rank_and_select l = None <-> l = []) /\
  (forall w, rank_and_select l = Some w ->
             In w l /\ forall x, In x l -> in_order w x).
Proof.
  destruct (sort_is_outcome l) as [P S].
  unfold rank_and_select. split.
  - split.
    + intros H. destruct (sort sorting l) as [|h t] eqn:E; [|discriminate].
      apply Permutation_sym in P. now apply Permutation_nil in P.
    + intros ->. reflexivity.
  - intros w H. destruct (sort sorting l) as [|h t] eqn:E; [discriminate|].
    injection H as ->. split.
    + eapply Permutation_in; [apply Permutation_sym; exact P|now left].
    + intros x Hx. apply (sorted_head_least S).
      eapply Permutation_in; [exact P|exact Hx].
Qed.

(** X2: there is a winner exactly when the list is not empty; the
    winner is a candidate of the list that the comparator puts after none
    of the others, and it is the only such candidate. *)
Theorem winner_is_least (l : list Candidate) :
  (rank_and_select l = None <-> l = []) /\
  (forall w, rank_and_select l = Some w ->
             In w l /\ (forall x, In x l -> in_order w x) /\
             (forall w', In w' l -> (forall x, In x l -> in_order w' x) ->
                         w' = w)).
Proof.
  destruct (select_least l) as [Hnone Hsome]. split; [exact Hnone|].
  intros w Hw. destruct (Hsome w Hw) as [Hin Hmin].
  split; [exact Hin|]. split; [exact Hmin|].
  intros w' Hin' Hmin'. apply in_order_antisym.
  - now apply Hmin'.
  - now apply Hmin.
Qed.

(** X3: the winner does not depend on the order in which the frames'
    candidates arrive. *)
Theorem winner_permutation_invariant (l l' : list Candidate) :
  Permutation l l' -> rank_and_select l = rank_and_select l'.
Proof.
  intros P. unfold rank_and_select.
  apply outcome_head_unique with l.
  - apply sort_is_outcome.
  - destruct (sort_is_outcome l') as [P' S']. split; [|exact S'].
    eapply perm_trans; [exact P|exact P'].
Qed.

Lemma winner_permutation_invariant_witness :
  Permutation Scenario.three_frames (rev Scenario.three_frames) /\
  rank_and_select Scenario.three_frames
  = rank_and_select (rev Scenario.three_frames).
Proof.
  assert (P : Permutation Scenario.three_frames (rev Scenario.three_frames))
    by apply Permutation_rev.
  split; [exact P|].
  exact (winner_permutation_invariant P).
Defined.

(** X4: if any candidate is playing, the winner is a playing one. *)
Theorem playing_candidate_wins (l : list Candidate) (c : Candidate) :
  In c l -> paused c = false ->
  exists w, rank_and_select l = Some w /\ paused w = false.
Proof.
  intros Hc Hp.
  destruct (rank_and_select l) as [w|] eqn:E.
  - exists w. split; [reflexivity|].
    destruct (proj2 (select_least l) w E) as [_ Hmin].
    specialize (Hmin c Hc). unfold in_order, ordered in Hmin.
    rewrite sorting_order in Hmin.
    destruct w as [[|] cw fw], c as [pc [|] fc]; simpl in *; subst;
      simpl in Hmin; try reflexivity; lia.
  - apply (proj1 (select_least l)) in E. subst. destruct Hc.
Qed.

Lemma playing_candidate_wins_witness :
  In {| paused := false; connected := true; frameId := 2 |}
     Scenario.three_frames /\
  exists w, rank_and_select Scenario.three_frames = Some w /\ paused w = false.
Proof.
  assert (H : In {| paused := false; connected := true; frameId := 2 |}
                 Scenario.three_frames) by (simpl; tauto).
  split; [exact H|].
  exact (playing_candidate_wins Scenario.three_frames _ H eq_refl).
Defined.

(** X5: between two candidates with the same [paused] and the same
    [connected], the one from the frame with the lower id is ranked ahead
    and wins. *)
Theorem lower_frame_first (a b : Candidate) :
  paused a = paused b -> connected a = connected b -> frameId a < frameId b ->
  ranks_ahead a b /\ ~ ranks_ahead b a /\
  rank_and_select [a; b] = Some a /\ rank_and_select [b; a] = Some a.
Proof.
  intros Hp Hc Hf.
  destruct a as [pa ca fa], b as [pb cb fb]; simpl in *; subst.
  unfold ranks_ahead, rank_and_select. simpl. rewrite !sorting_order. simpl.
  assert (E1 : (fb - fa <=? 0) = false) by (apply Z.leb_gt; lia).
  assert (E2 : (fa - fb <=? 0) = true) by (apply Z.leb_le; lia).
  destruct pb, cb; simpl; rewrite ?E1, ?E2; repeat split; lia.
Qed.

Lemma lower_frame_first_witness :
  paused Scenario.paused_anywhere = paused Scenario.paused_attached /\
  connected Scenario.paused_anywhere = connected Scenario.paused_attached /\
  frameId Scenario.paused_anywhere < frameId Scenario.paused_attached /\
  ranks_ahead Scenario.paused_anywhere Scenario.paused_attached.
Proof.
  split; [reflexivity|]. split; [reflexivity|]. split; [reflexivity|].
  apply (lower_frame_first Scenario.paused_anywhere Scenario.paused_attached);
    reflexivity.
Defined.

(** X6: the winner is one of the probed objects, tagged with the id of
    the frame whose result it came in: the activation is injected into a
    frame that answered the probe with a video. *)
Theorem winner_frame_answered
    (r : option (list InjectionResult)) (w : Candidate) :
  rank_and_select (candidates r) = Some w ->
  exists rs o v,
    r = Some rs /\ In o rs /\ In v (ir_result o) /\
    w = tag o v /\ frameId w = ir_frameId o.
Proof.
  intros H. destruct (proj2 (select_least _) w H) as [Hin _].
  unfold candidates in Hin. destruct r as [rs|]; [|destruct Hin].
  apply in_concat in Hin. destruct Hin as [cs [Hcs Hw]].
  apply in_map_iff in Hcs. destruct Hcs as [o [<- Ho]].
  apply in_map_iff in Hw. destruct Hw as [v [<- Hv]].
  exists rs, o, v. repeat split; assumption.
Qed.

Lemma winner_frame_answered_witness :
  rank_and_select (candidates (Some Scenario.two_playing_probe))
    = Some (Scenario.probed Scenario.detached) /\
  exists rs o v,
    Some Scenario.two_playing_probe = Some rs /\ In o rs /\
    In v (ir_result o) /\
    Scenario.probed Scenario.detached = tag o v /\
    frameId (Scenario.probed Scenario.detached) = ir_frameId o.
Proof.
  split; [reflexivity|].
  exact (winner_frame_answered (Some Scenario.two_playing_probe) eq_refl).
Defined.
End RankerLists.

(** ** The element-discovery merge *)

Section ProberFacts.
Import Prober.

Lemma has_spec (es : list Element) (v : Element) :
  has es v = true <-> In (el_id v) (map el_id es).
Proof.
  unfold has. rewrite existsb_exists, in_map_iff. split.
  - intros [e [He Heq]]. apply Nat.eqb_eq in Heq. now exists e.
  - intros [e [Heq He]]. exists e. split; [exact He|now apply Nat.eqb_eq].
Qed.

Lemma add_ids (es : list Element) (v : Element) (i : nat) :
  In i (map el_id (add es v)) <-> In i (map el_id es) \/ i = el_id v.
Proof.
  unfold add. destruct (has es v) eqn:E.
  - apply has_spec in E. split; [tauto|]. intros [H| ->]; assumption.
  - rewrite map_app, in_app_iff. simpl. intuition congruence.
Qed.

Lemma add_NoDup (es : list Element) (v : Element) :
  NoDup (map el_id es) -> NoDup (map el_id (add es v)).
Proof.
  intros H. unfold add. destruct (has es v) eqn:E; [exact H|].
  rewrite map_app. simpl. apply NoDup_app.
  - exact H.
  - repeat constructor. intros [].
  - intros i Hi [<-|[]]. apply has_spec in Hi. congruence.
Qed.

Lemma fold_add_ids (vs es : list Element) (i : nat) :
  In i (map el_id (fold_left add vs es))
  <-> In i (map el_id es) \/ In i (map el_id vs).
Proof.
  revert es. induction vs as [|v vs IH]; intros es; simpl.
  - tauto.
  - rewrite IH, add_ids. intuition congruence.
Qed.

Lemma fold_add_NoDup (vs es : list Element) :
  NoDup (map el_id es) -> NoDup (map el_id (fold_left add vs es)).
Proof.
  revert es. induction vs as [|v vs IH]; intros es H; simpl.
  - exact H.
  - apply IH, add_NoDup, H.
Qed.

(** X7: the merge reports every object once: the collected elements
    have pairwise distinct identities, and they are exactly the objects of
    the global [videos] and of the document query. *)
Theorem collect_is_a_set (f : Frame) :
  NoDup (map el_id (collect f)) /\
  forall i, In i (map el_id (collect f))
            <-> In i (map el_id (match videos f with
                                 | Some vs => vs
                                 | None => []
                                 end))
                \/ In i (map el_id (queried f)).
Proof.
  unfold collect. split.
  - apply fold_add_NoDup. destruct (videos f).
    + apply fold_add_NoDup. constructor.
    + constructor.
  - intros i. rewrite fold_add_ids. destruct (videos f).
    + rewrite fold_add_ids. simpl. tauto.
    + simpl. tauto.
Qed.
End ProberFacts.

(** ** What the activation function selects *)

Section ActivatorFacts.
Import JS.
Local Open Scope Z_scope.

Lemma insert_playing (x : Element) (l : list Element) :
  el_paused x = false ->
  JS.insert Activator.sorting x l = x :: l.
Proof.
  intros Hx. destruct l as [|y t]; simpl; [reflexivity|].
  rewrite in_frame_order, Hx. simpl. now destruct (el_paused y).
Qed.

Lemma insert_paused (x : Element) (playing stopped : list Element) :
  el_paused x = true ->
  Forall (fun e => el_paused e = false) playing ->
  Forall (fun e => el_paused e = true) stopped ->
  JS.insert Activator.sorting x (playing ++ stopped)
  = playing ++ x :: stopped.
Proof.
  intros Hx Hp Hs. induction Hp as [|y t Hy Ht IH]; simpl.
  - destruct Hs as [|z u Hz Hu]; simpl; [reflexivity|].
    rewrite in_frame_order, Hx, Hz. reflexivity.
  - rewrite in_frame_order, Hx, Hy. simpl. now rewrite IH.
Qed.

Lemma filter_all (p : Element -> bool) (l : list Element) :
  Forall (fun e => p e = true) (filter p l).
Proof.
  apply Forall_forall. intros e He. now apply filter_In in He.
Qed.

Lemma in_frame_sort (l : list Element) :
  JS.sort Activator.sorting l
  = filter (fun e => negb (el_paused e)) l ++ filter el_paused l.
Proof.
  induction l as [|x l IH]; simpl; [reflexivity|].
  rewrite IH. destruct (el_paused x) eqn:Hx; simpl.
  - apply insert_paused; [exact Hx| |apply filter_all].
    eapply Forall_impl; [|apply filter_all].
    intros e He. simpl in He. now destruct (el_paused e).
  - now apply insert_playing.
Qed.

Lemma shift_filter_app (p : Element -> bool) (l rest : list Element) :
  shift (filter p l ++ rest)
  = match find p l with
    | Some e => Some e
    | None => shift rest
    end.
Proof.
  induction l as [|x l IH]; simpl; [reflexivity|].
  destruct (p x); simpl; [reflexivity|exact IH].
Qed.

Lemma none_playing (l : list Element) :
  find (fun e => negb (el_paused e)) l = None -> filter el_paused l = l.
Proof.
  induction l as [|x l IH]; simpl; [reflexivity|].
  destruct (el_paused x); simpl; [|discriminate].
  intros H. now rewrite IH.
Qed.

(** X8: the in-frame sort moves the playing videos in front of the
    paused ones and keeps the order of discovery within both groups; so the
    activation function selects the first playing video discovered, and the
    first video discovered when none is playing. *)
Theorem activation_selects_first_playing (f : Prober.Frame) :
  JS.sort Activator.sorting (Prober.collect f)
  = filter (fun e => negb (el_paused e)) (Prober.collect f)
    ++ filter el_paused (Prober.collect f) /\
  Activator.select f
  = match find (fun e => negb (el_paused e)) (Prober.collect f) with
    | Some e => Some e
    | None => shift (Prober.collect f)
    end.
Proof.
  split; [apply in_frame_sort|].
  unfold Activator.select. rewrite in_frame_sort, shift_filter_app.
  destruct (find (fun e => negb (el_paused e)) (Prober.collect f)) eqn:E;
    [reflexivity|].
  now rewrite (none_playing _ E).
Qed.





(** X29: the video put into PiP need not be the ranker's winner.  In a
    frame whose global [videos] tracks two playing videos, the first still
    in the document and the second detached from it, the ranker's winner is
    the detached video, while the activation function, sorting the elements
    themselves, selects the attached one. *)
Theorem activation_can_miss_the_winner (first second : Element) (n : Z) :
  el_id first <> el_id second ->
  el_paused first = false -> el_paused second = false ->
  el_isConnected first = true -> el_isConnected second = false ->
  let f := Nesting.tracked_pair first second in
  let o := {| Ranker.ir_frameId := n; Ranker.ir_result := Prober.func f |} in
  Prober.collect f = [first; second] /\
  Ranker.rank_and_select (Ranker.candidates (Some [o]))
  = Some (Ranker.tag o (Prober.snapshot second)) /\
  Activator.select f = Some first /\
  Ranker.tag o (Prober.snapshot first) <> Ranker.tag o (Prober.snapshot second).
Proof.
  intros Hid Hp1 Hp2 Hc1 Hc2 f o.
  assert (C : Prober.collect f = [first; second]).
  { unfold f, Nesting.tracked_pair, Prober.collect, Prober.add, Prober.has.
    simpl. apply Nat.eqb_neq in Hid. rewrite Hid. simpl.
    now rewrite Nat.eqb_refl. }
  split; [exact C|]. split; [|split].
  - unfold Ranker.rank_and_select, Ranker.candidates, o, Prober.func.
    simpl. rewrite C. simpl. rewrite sorting_order. simpl.
    now rewrite Hp1, Hp2, Hc1, Hc2.
  - unfold Activator.select. rewrite C. simpl.
    rewrite in_frame_order, Hp1, Hp2. reflexivity.
  - unfold Ranker.tag, Prober.snapshot. simpl. rewrite Hc1, Hc2.
    discriminate.
Qed.

Lemma activation_can_miss_the_winner_witness :
  el_id Scenario.attached <> el_id Scenario.detached /\
  Activator.select (Nesting.tracked_pair Scenario.attached Scenario.detached)
  = Some Scenario.attached /\
  Ranker.rank_and_select
    (Ranker.candidates
       (Some [ {| Ranker.ir_frameId := 0;
                  Ranker.ir_result :=
                    Prober.func (Nesting.tracked_pair Scenario.attached
                                                      Scenario.detached) |} ]))
  = Some (Ranker.tag
            {| Ranker.ir_frameId := 0;
               Ranker.ir_result :=
                 Prober.func (Nesting.tracked_pair Scenario.attached
                                                   Scenario.detached) |}
            (Prober.snapshot Scenario.detached)).
Proof.
  assert (H : el_id Scenario.attached <> el_id Scenario.detached)
    by discriminate.
  pose proof (@activation_can_miss_the_winner Scenario.attached
                Scenario.detached 0 H eq_refl eq_refl eq_refl eq_refl) as T.
  split; [exact H|]. split.
  - exact (proj1 (proj2 (proj2 T))).
  - exact (proj1 (proj2 T)).
Defined.
End ActivatorFacts.

(** ** Every invocation of [triggerPictureInPicture] *)

Section InvocationFacts.
Import Ranker Background.
Local Open Scope string_scope.
Local Open Scope list_scope.

(** The trace of an invocation has one of the seven shapes. *)
Lemma trigger_shape (w : World) (tabId : Z) :
  Trace.shape w tabId (triggerPictureInPicture w tabId).
Proof.
  destruct w as [p b g a fr rq].
  unfold triggerPictureInPicture, triggerPictureInPicture_body,
    execute_probe, execute_guard, execute_activation, activation_func.
  simpl.
  set (w := {| probe := p; block_pip := b; guard_injection := g;
               activation_injection := a; frame_at_activation := fr;
               request_pip := rq |}).
  destruct p as [m|r]; simpl.
  - exact (@Trace.probe_rejected w tabId m eq_refl).
  - destruct (rank_and_select (candidates r)) as [win|] eqn:R; simpl.
    2: exact (@Trace.no_winner w tabId r eq_refl R).
    destruct b; simpl.
    + destruct g as [m|]; simpl.
      * exact (@Trace.guard_rejected w tabId r win m eq_refl R eq_refl eq_refl).
      * destruct a as [m|]; simpl.
        -- exact (@Trace.activation_rejected w tabId r win m eq_refl R
                    (fun _ => eq_refl) eq_refl).
        -- destruct (Activator.select (fr (frameId win))) as [v|] eqn:S; simpl.
           ++ destruct (rq v) as [m|] eqn:Q; simpl.
              ** exact (@Trace.request_rejected w tabId r win v m eq_refl R
                          (fun _ => eq_refl) eq_refl S Q).
              ** exact (@Trace.request_resolved w tabId r win v eq_refl R
                          (fun _ => eq_refl) eq_refl S Q).
           ++ exact (@Trace.nothing_to_activate w tabId r win eq_refl R
                       (fun _ => eq_refl) eq_refl S).
    + assert (N : block_pip w = true -> guard_injection w = None)
        by (simpl; discriminate).
      destruct a as [m|]; simpl.
      * exact (@Trace.activation_rejected w tabId r win m eq_refl R N eq_refl).
      * destruct (Activator.select (fr (frameId win))) as [v|] eqn:S; simpl.
        -- destruct (rq v) as [m|] eqn:Q; simpl.
           ++ exact (@Trace.request_rejected w tabId r win v m eq_refl R
                       N eq_refl S Q).
           ++ exact (@Trace.request_resolved w tabId r win v eq_refl R
                       N eq_refl S Q).
        -- exact (@Trace.nothing_to_activate w tabId r win eq_refl R
                    N eq_refl S).
Qed.

(** Two facts about one world's probe, winner and injections agree. *)
Ltac same_path :=
  repeat match goal with
  | H1 : probe ?w = _, H2 : probe ?w = _ |- _ =>
      rewrite H1 in H2; inversion H2; subst; clear H2
  | H1 : rank_and_select ?l = _, H2 : rank_and_select ?l = _ |- _ =>
      rewrite H1 in H2; inversion H2; subst; clear H2
  | H1 : guard_injection ?w = _, H2 : guard_injection ?w = _ |- _ =>
      rewrite H1 in H2; inversion H2; subst; clear H2
  | H1 : activation_injection ?w = _, H2 : activation_injection ?w = _ |- _ =>
      rewrite H1 in H2; inversion H2; subst; clear H2
  | H1 : Activator.select ?f = _, H2 : Activator.select ?f = _ |- _ =>
      rewrite H1 in H2; inversion H2; subst; clear H2
  | H1 : block_pip ?w = true, H2 : block_pip ?w = true -> _ |- _ =>
      specialize (H2 H1)
  end.

(** Going through the events of a trace written out. *)
Ltac each_event H :=
  unfold Trace.guarded, Trace.reported in H; simpl in H;
  repeat (destruct H as [H|H]; [try discriminate H|]); try contradiction.


(** X10: an invocation reports at most one failure, and always the same
    way: if it sets the badge text or the title at all, its trace ends with
    the warning, badge text "E" and the title carrying the message, nothing
    before that touches badge or title, and no PiP request was made. *)
Theorem failure_is_reported_once (w : World) (tabId : Z) :
  existsb is_badge_or_title (triggerPictureInPicture w tabId) = true ->
  exists before message,
    triggerPictureInPicture w tabId = before ++ Trace.reported tabId message /\
    existsb is_badge_or_title before = false /\
    existsb Trace.is_request (triggerPictureInPicture w tabId) = false.
Proof.
  intros H.
  destruct (trigger_shape w tabId) as
    [m Hp | r Hp Hr | r win m Hp Hr Hb Hg | r win m Hp Hr Hg Ha
    | r win Hp Hr Hg Ha Hs | r win v Hp Hr Hg Ha Hs Hq
    | r win v m Hp Hr Hg Ha Hs Hq].
  - exists [ExecuteScript tabId AllFrames ProbeFunc], m. now repeat split.
  - exists [ExecuteScript tabId AllFrames ProbeFunc], "No player is detected".
    now repeat split.
  - eexists _, m. split; [reflexivity|]. now split.
  - exists (Trace.guarded w tabId (frameId win)), m.
    split; [reflexivity|].
    unfold Trace.guarded. destruct (block_pip w); now split.
  - exfalso. revert H. unfold Trace.guarded.
    destruct (block_pip w); discriminate.
  - exfalso. revert H. unfold Trace.guarded.
    destruct (block_pip w); discriminate.
  - exfalso. revert H. unfold Trace.guarded.
    destruct (block_pip w); discriminate.
Qed.

Lemma failure_is_reported_once_witness :
  existsb is_badge_or_title (triggerPictureInPicture Scenario.nothing_found 4)
    = true /\
  exists before message,
    triggerPictureInPicture Scenario.nothing_found 4
      = before ++ Trace.reported 4 message /\
    existsb is_badge_or_title before = false /\
    existsb Trace.is_request (triggerPictureInPicture Scenario.nothing_found 4)
      = false.
Proof.
  split; [reflexivity|].
  exact (failure_is_reported_once Scenario.nothing_found 4 eq_refl).
Defined.

(** X11: the guard follows the preference.  With ['block-pip'] off the
    guard function is never injected; with it on, the activation function
    is only ever injected after the guard was installed in the same frame. *)
Theorem guard_follows_preference (w : World) (tabId : Z) :
  (block_pip w = false ->
   existsb Trace.is_guard (triggerPictureInPicture w tabId) = false) /\
  (block_pip w = true ->
   forall t tg, In (ExecuteScript t tg ActivationFunc)
                   (triggerPictureInPicture w tabId) ->
   exists frame before after,
     tg = FrameIds [frame] /\
     triggerPictureInPicture w tabId
     = before ++ GuardInstalled frame :: ExecuteScript t tg ActivationFunc :: after).
Proof.
  split; intros B.
  - destruct (trigger_shape w tabId); unfold Trace.guarded;
      try rewrite B; try reflexivity; congruence.
  - intros t tg Hin.
    destruct (trigger_shape w tabId) as
      [m Hp | r Hp Hr | r win m Hp Hr Hb Hg | r win m Hp Hr Hg Ha
      | r win Hp Hr Hg Ha Hs | r win v Hp Hr Hg Ha Hs Hq
      | r win v m Hp Hr Hg Ha Hs Hq];
      unfold Trace.guarded, Trace.reported in *; try rewrite B in *;
      simpl in Hin;
      repeat (destruct Hin as [Hin|Hin]; [try discriminate Hin|]);
      try contradiction;
      injection Hin as <- <-;
      exists (frameId win),
        [ ExecuteScript tabId AllFrames ProbeFunc; SetIcon tabId; StorageGet;
          ExecuteScript tabId (FrameIds [frameId win]) GuardFunc ];
      eexists; (split; [reflexivity|]); simpl; reflexivity.
Qed.

Lemma guard_follows_preference_witness :
  block_pip Scenario.request_refused = true /\
  exists frame before after,
    FrameIds [0%Z] = FrameIds [frame] /\
    triggerPictureInPicture Scenario.request_refused 4
    = before ++ GuardInstalled frame
        :: ExecuteScript 4 (FrameIds [0%Z]) ActivationFunc :: after.
Proof.
  split; [reflexivity|].
  apply (proj2 (guard_follows_preference Scenario.request_refused 4) eq_refl).
  vm_compute. tauto.
Defined.





(** X14: the icon is set (as for a playing video) exactly when the
    probe found a winner, whatever becomes of the guard, of the activation
    and of the request afterwards. *)
Theorem icon_iff_winner (w : World) (tabId : Z) :
  In (SetIcon tabId) (triggerPictureInPicture w tabId) <->
  exists r winner,
    probe w = inr r /\ rank_and_select (candidates r) = Some winner.
Proof.
  destruct (trigger_shape w tabId) as
    [m Hp | r Hp Hr | r win m Hp Hr Hb Hg | r win m Hp Hr Hg Ha
    | r win Hp Hr Hg Ha Hs | r win v Hp Hr Hg Ha Hs Hq
    | r win v m Hp Hr Hg Ha Hs Hq];
    (split;
     [ intros Hin; each_event Hin; exists r, win; now split
     | intros [r' [win' [Hp' Hr']]]; same_path; try discriminate;
       unfold Trace.guarded; simpl; tauto ]).
Qed.

(** X15: when the guard is wanted and its injection is rejected, the
    invocation stops there: the activation function is not injected, no PiP
    request is made, and the rejection's message is reported on the badge
    and title. *)
Theorem guard_failure_stops_activation
    (w : World) (tabId : Z) (r : option (list InjectionResult))
    (winner : Candidate) (message : string) :
  probe w = inr r -> rank_and_select (candidates r) = Some winner ->
  block_pip w = true -> guard_injection w = Some message ->
  triggerPictureInPicture w tabId =
    [ ExecuteScript tabId AllFrames ProbeFunc; SetIcon tabId; StorageGet;
      ExecuteScript tabId (FrameIds [frameId winner]) GuardFunc ]
    ++ Trace.reported tabId message /\
  existsb Trace.is_request (triggerPictureInPicture w tabId) = false /\
  (forall t tg, ~ In (ExecuteScript t tg ActivationFunc)
                     (triggerPictureInPicture w tabId)).
Proof.
  intros Hp Hr Hb Hg.
  assert (T : triggerPictureInPicture w tabId =
    [ ExecuteScript tabId AllFrames ProbeFunc; SetIcon tabId; StorageGet;
      ExecuteScript tabId (FrameIds [frameId winner]) GuardFunc ]
    ++ Trace.reported tabId message).
  { destruct (trigger_shape w tabId); same_path; try discriminate.
    reflexivity. }
  rewrite T. split; [reflexivity|]. split; [reflexivity|].
  intros t tg Hin. each_event Hin.
Qed.

Lemma guard_failure_stops_activation_witness :
  probe Cases.guard_refused
    = inr (Some [ {| ir_frameId := 0;
                     ir_result := Prober.func Scenario.one_video |} ]) /\
  block_pip Cases.guard_refused = true /\
  guard_injection Cases.guard_refused
    = Some "Cannot access contents of the page" /\
  existsb Trace.is_request (triggerPictureInPicture Cases.guard_refused 4)
    = false.
Proof.
  split; [reflexivity|]. split; [reflexivity|]. split; [reflexivity|].
  exact (proj1 (proj2 (@guard_failure_stops_activation Cases.guard_refused 4
                         _ Cases.the_winner _ eq_refl eq_refl eq_refl eq_refl))).
Defined.

(** X16: when the winner's frame holds no video any more by the time
    the activation function runs there, nothing is requested and nothing is
    reported: no alert, no badge text, no title; the icon stays set. *)
Theorem vanished_video_is_silent
    (w : World) (tabId : Z) (r : option (list InjectionResult))
    (winner : Candidate) :
  probe w = inr r -> rank_and_select (candidates r) = Some winner ->
  (block_pip w = true -> guard_injection w = None) ->
  activation_injection w = None ->
  Prober.collect (frame_at_activation w (frameId winner)) = [] ->
  triggerPictureInPicture w tabId = Trace.guarded w tabId (frameId winner) /\
  existsb Trace.is_request (triggerPictureInPicture w tabId) = false /\
  existsb is_badge_or_title (triggerPictureInPicture w tabId) = false /\
  (forall frame message, ~ In (Alert frame message)
                              (triggerPictureInPicture w tabId)).
Proof.
  intros Hp Hr Hg Ha Hc.
  assert (S : Activator.select (frame_at_activation w (frameId winner)) = None).
  { unfold Activator.select. now rewrite Hc. }
  assert (T : triggerPictureInPicture w tabId
              = Trace.guarded w tabId (frameId winner)).
  { destruct (trigger_shape w tabId); same_path; try discriminate;
      reflexivity. }
  rewrite T. unfold Trace.guarded.
  destruct (block_pip w); simpl; repeat split; try reflexivity;
    intros frame message Hin; each_event Hin.
Qed.

Lemma vanished_video_is_silent_witness :
  probe Cases.video_gone
    = inr (Some [ {| ir_frameId := 0;
                     ir_result := Prober.func Scenario.one_video |} ]) /\
  activation_injection Cases.video_gone = None /\
  Prober.collect (frame_at_activation Cases.video_gone 0) = [] /\
  existsb is_badge_or_title (triggerPictureInPicture Cases.video_gone 4) = false.
Proof.
  split; [reflexivity|]. split; [reflexivity|]. split; [reflexivity|].
  assert (G : block_pip Cases.video_gone = true ->
              guard_injection Cases.video_gone = None) by reflexivity.
  exact (proj1 (proj2 (proj2 (@vanished_video_is_silent Cases.video_gone 4
                         _ Cases.the_winner eq_refl eq_refl G eq_refl eq_refl)))).
Defined.
End InvocationFacts.

(** ** The grace window *)

Section GraceWindow.
Import ExitGuard.
Local Open Scope N_scope.

Lemma guard_state_call (f0 : nat) (s : frame) :
  guard_state f0 s ->
  (timers s = [] -> call (exitPictureInPicture s) = Executed f0) /\
  (timers s <> [] -> call (exitPictureInPicture s) = Ignored).
Proof.
  intros [Hp Ht He | h Hp Ht He | h due g Hp Ht He Hlo Hhi];
    rewrite Ht, He; split; intros H; try reflexivity;
    solve [discriminate | now elim H].
Qed.

Lemma install_pending (f0 : nat) (s : frame) :
  guard_state f0 s ->
  timers (install s) = [(next_handle s, now s + 2000)] /\
  now (install s) = now s.
Proof.
  intros [Hp Ht He | h Hp Ht He | h due g Hp Ht He Hlo Hhi];
    unfold install; rewrite Hp, Ht; simpl; rewrite ?Nat.eqb_refl;
    split; reflexivity.
Qed.

(** X17: in every state a frame can reach, the page's calls to
    [exitPictureInPicture] are discarded while the guard's timeout is
    pending, and run the original function when none is. *)
Theorem ignored_while_pending
    (f0 : nat) (t0 : N) (h0 : nat) (ops : list op) :
  let s := run ops (fresh f0 t0 h0) in
  (timers s = [] -> call (exitPictureInPicture s) = Executed f0) /\
  (timers s <> [] -> call (exitPictureInPicture s) = Ignored).
Proof.
  intros s. apply guard_state_call, run_guard_state, fresh_guard_state.
Qed.

(** X18: the window is 2000 ms from the latest installation, whatever
    went before: after an installation in any reachable state, and any
    events among which there is no further installation, a call by the
    page is discarded if less than 2000 ms have passed and runs the
    original function otherwise. *)
Theorem grace_window_is_2000_ms
    (f0 : nat) (t0 : N) (h0 : nat) (ops later : list op) :
  existsb is_install later = false ->
  call (exitPictureInPicture
          (run later (install (run ops (fresh f0 t0 h0)))))
  = if 2000 <=? waited later then Executed f0 else Ignored.
Proof.
  intros Hq. set (s := run ops (fresh f0 t0 h0)).
  assert (G : guard_state f0 s) by apply run_guard_state, fresh_guard_state.
  assert (G' : guard_state f0 (install s)) by now apply install_guard_state.
  destruct (install_pending G) as [Ht Hn].
  pose proof (@quiet_run f0 later Hq (install s) G') as O.
  unfold quiet_outcome in O. rewrite Ht, Hn in O.
  destruct (2000 <=? waited later) eqn:E.
  - apply N.leb_le in E.
    replace (now s + 2000 <=? now s + waited later) with true in O
      by (symmetry; apply N.leb_le; lia).
    destruct O as [_ [-> _]]. reflexivity.
  - apply N.leb_gt in E.
    replace (now s + 2000 <=? now s + waited later) with false in O
      by (symmetry; apply N.leb_gt; lia).
    destruct O as [_ Hpending].
    apply (guard_state_call (run_guard_state later G')).
    rewrite Hpending. discriminate.
Qed.

Lemma grace_window_is_2000_ms_witness :
  existsb is_install [Wait 1999; PageExit] = false /\
  call (exitPictureInPicture
          (run [Wait 1999; PageExit]
             (install (run [Install; Wait 5000] (fresh 0 1000 5)))))
  = Ignored.
Proof.
  split; [reflexivity|].
  exact (@grace_window_is_2000_ms 0 1000 5 [Install; Wait 5000]
           [Wait 1999; PageExit] eq_refl).
Defined.
End GraceWindow.

(** ** The content script's two branches *)

Section ListenerFacts.
Import JS Content.
Local Open Scope string_scope.
Local Open Scope list_scope.

(** X19: a [getVideoInfo] message is answered exactly once, at once,
    and nothing else is done.  With no video on the page the answer is the
    failure; otherwise it describes a video of the page, and a playing one
    whenever any video of the page is playing. *)
Theorem getVideoInfo_answers_once (env : Env) (request : Request) :
  action request = "getVideoInfo" ->
  exists r,
    listener env request = ([(0%N, SendResponse r)], Boolean true) /\
    (page_videos (page_at env 0) = [] ->
     r = Failure "No video found on the page") /\
    (forall v, In v (page_videos (page_at env 0)) ->
     exists u, In u (page_videos (page_at env 0)) /\
               r = Success (v_currentTime u) (v_duration u) (v_paused u) /\
               (v_paused v = false -> v_paused u = false)).
Proof.
  intros Ha. unfold listener. rewrite Ha. simpl.
  set (vs := page_videos (page_at env 0)).
  destruct (find (fun v => negb (v_paused v)) vs) as [u|] eqn:F.
  - apply find_some in F. destruct F as [Hu Hp].
    eexists. split; [reflexivity|]. split.
    + intros E. rewrite E in Hu. destruct Hu.
    + intros v Hv. exists u. repeat split; [exact Hu|].
      intros _. now destruct (v_paused u).
  - destruct vs as [|u rest] eqn:E; simpl.
    + eexists. split; [reflexivity|]. split; [reflexivity|]. intros v [].
    + eexists. split; [reflexivity|]. split; [discriminate|].
      intros v Hv. exists u. repeat split; [now left|].
      intros Hp. pose proof (find_none _ _ F v Hv) as N. simpl in N.
      rewrite Hp in N. discriminate.
Qed.

Lemma getVideoInfo_answers_once_witness :
  action Popup.getVideoInfo = "getVideoInfo" /\
  exists r, listener Scenario.a_page Popup.getVideoInfo
            = ([(0%N, SendResponse r)], Boolean true).
Proof.
  split; [reflexivity|].
  destruct (getVideoInfo_answers_once Scenario.a_page Popup.getVideoInfo eq_refl)
    as [r [H _]].
  now exists r.
Defined.


End ListenerFacts.

(** ** The badge colour *)

Section BadgeFacts.
Import Badge.
Local Open Scope string_scope.
Local Open Scope list_scope.

Lemma deliver_after_ran (signals : list signal) :
  deliver signals true = (true, []).
Proof.
  induction signals as [|x rest IH]; simpl; [reflexivity|].
  now rewrite IH.
Qed.

(** X21: however many [onStartup] and [onInstalled] events arrive, and
    in whatever order, the badge background colour is set once, on the
    first of them, and [once.ran] stays set. *)
Theorem badge_colour_set_once (first : signal) (rest : list signal) :
  deliver (first :: rest) false
  = (true, [SetBadgeBackgroundColor "#f10e08"]) /\
  deliver (first :: rest) true = (true, []).
Proof.
  split; [|apply deliver_after_ran].
  simpl. now rewrite deliver_after_ran.
Qed.
End BadgeFacts.

(** ** The playlist *)

Section PlaylistFacts.
Import JS Popup.
Local Open Scope string_scope.
Local Open Scope list_scope.

Lemma known_url (u : string) (playlist : list Entry) :
  existsb (fun v => url v =? u) playlist = true <-> In u (map url playlist).
Proof.
  rewrite existsb_exists, in_map_iff. split.
  - intros [v [Hv E]]. apply String.eqb_eq in E. now exists v.
  - intros [v [E Hv]]. exists v. split; [exact Hv|now apply String.eqb_eq].
Qed.

Lemma or_zero_number (n : number) : or_zero n <> NaN.
Proof.
  unfold or_zero. destruct n as [z|]; simpl; [|discriminate].
  destruct (z =? 0)%Z; discriminate.
Qed.

(** What the playlist is kept to: one entry per URL, and positions that
    are numbers. *)
Lemma handle_keeps (currentTab : Tab) (iso : string)
    (response : option Content.Response) (playlist : list Entry) :
  NoDup (map url playlist) /\ Forall (fun e => timestamp e <> NaN) playlist ->
  NoDup (map url (fst (handleVideoInfo currentTab iso response playlist))) /\
  Forall (fun e => timestamp e <> NaN)
         (fst (handleVideoInfo currentTab iso response playlist)).
Proof.
  intros [Hn Hf]. unfold handleVideoInfo.
  destruct response as [[ct d p|m]|]; simpl; try (split; assumption).
  destruct (existsb (fun v => url v =? tab_url currentTab) playlist) eqn:E;
    simpl; [split; assumption|].
  split.
  - rewrite map_app. simpl. apply NoDup_app.
    + exact Hn.
    + repeat constructor. intros [].
    + intros u Hu [<-|[]]. apply known_url in Hu. congruence.
  - apply Forall_app. split; [exact Hf|].
    repeat constructor. simpl. apply or_zero_number.
Qed.

Lemma splice1_cons (index : nat) (x : Entry) (playlist : list Entry) :
  splice1 (S index) (x :: playlist) = x :: splice1 index playlist.
Proof. reflexivity. Qed.

Lemma splice1_subset (index : nat) (playlist : list Entry) (e : Entry) :
  In e (splice1 index playlist) -> In e playlist.
Proof.
  revert index. induction playlist as [|x l IH]; intros index.
  - unfold splice1. now rewrite firstn_nil, skipn_nil.
  - destruct index as [|index].
    + intros H. now right.
    + rewrite splice1_cons. intros [H|H]; [now left|].
      right. now apply IH with index.
Qed.

Lemma splice1_keeps (index : nat) (playlist : list Entry) :
  NoDup (map url playlist) /\ Forall (fun e => timestamp e <> NaN) playlist ->
  NoDup (map url (splice1 index playlist)) /\
  Forall (fun e => timestamp e <> NaN) (splice1 index playlist).
Proof.
  intros [Hn Hf]. split.
  - revert index. induction playlist as [|x l IH]; intros index.
    + unfold splice1. rewrite firstn_nil, skipn_nil. constructor.
    + inversion Hn as [|? ? Hx Hl]; subst. inversion Hf; subst.
      destruct index as [|index].
      * exact Hl.
      * rewrite splice1_cons. simpl. constructor; [|now apply IH].
        intros Hin. apply Hx. apply in_map_iff in Hin.
        destruct Hin as [e [E He]]. apply in_map_iff. exists e.
        split; [exact E|]. eapply splice1_subset; exact He.
  - apply Forall_forall. intros e He.
    rewrite Forall_forall in Hf. apply Hf.
    eapply splice1_subset; exact He.
Qed.

(** X22: whatever the user does in the popup (adding the current video,
    whether or not the page answers; removing at any index; clearing, and
    confirming or not), the playlist never holds two entries with the same
    URL, and every saved position is a number. *)
Theorem playlist_stays_well_formed (ops : list op) (playlist : list Entry) :
  NoDup (map url playlist) -> Forall (fun e => timestamp e <> NaN) playlist ->
  NoDup (map url (run ops playlist)) /\
  Forall (fun e => timestamp e <> NaN) (run ops playlist).
Proof.
  intros Hn Hf. assert (H := conj Hn Hf). clear Hn Hf.
  revert playlist H. induction ops as [|o ops IH]; intros playlist H.
  - exact H.
  - simpl. apply IH. destruct o as [tabs page injected iso|index|confirmed];
      simpl.
    + unfold addCurrentVideo. destruct tabs as [|currentTab rest]; [exact H|].
      destruct page as [env|].
      * now apply handle_keeps.
      * pose proof (handle_keeps currentTab iso (ask injected) H) as K.
        destruct (handleVideoInfo currentTab iso (ask injected) playlist).
        exact K.
    + now apply splice1_keeps.
    + destruct confirmed; simpl; [|exact H].
      split; constructor.
Qed.

Lemma playlist_stays_well_formed_witness :
  NoDup (map url (@nil Entry)) /\
  NoDup (map url
           (run [ Add [Cases.a_tab] (Some Cases.at_90) None "t1";
                  Add [Cases.a_tab] (Some Cases.at_90) None "t2";
                  Remove 3 ] [])).
Proof.
  assert (H : NoDup (map url (@nil Entry))) by constructor.
  split; [exact H|].
  exact (proj1 (@playlist_stays_well_formed
                  [ Add [Cases.a_tab] (Some Cases.at_90) None "t1";
                    Add [Cases.a_tab] (Some Cases.at_90) None "t2";
                    Remove 3 ] [] H (Forall_nil _))).
Defined.

(** X23: removing at an index takes out that entry and nothing else:
    the entries before it keep their index, those after it move down by
    one, and an index past the end removes nothing. *)
Theorem remove_lookup (index j : nat) (playlist : list Entry) :
  nth_error (fst (removeVideo index playlist)) j
  = (if (j <? index)%nat then nth_error playlist j
     else nth_error playlist (S j)) /\
  ((List.length playlist <= index)%nat ->
   fst (removeVideo index playlist) = playlist).
Proof.
  simpl. split.
  - revert index j. induction playlist as [|x l IH]; intros index j.
    + unfold splice1. rewrite firstn_nil, skipn_nil. simpl.
      destruct (j <? index)%nat; now destruct j.
    + destruct index as [|index].
      * reflexivity.
      * rewrite splice1_cons. destruct j as [|j]; [reflexivity|].
        simpl nth_error at 1. rewrite IH.
        change (S j <? S index)%nat with (j <? index)%nat.
        reflexivity.
  - intros Hlen. unfold splice1.
    rewrite firstn_all2 by exact Hlen.
    rewrite skipn_all2 by lia. apply app_nil_r.
Qed.

(** X24: a URL is saved once.  Adding a video whose URL is already in
    the playlist changes nothing, whatever the page answers: the position
    saved first is kept, and the user is told. *)
Theorem readding_keeps_first_position
    (currentTab : Tab) (iso : string) (response : option Content.Response)
    (playlist : list Entry) :
  In (tab_url currentTab) (map url playlist) ->
  fst (handleVideoInfo currentTab iso response playlist) = playlist /\
  exists message,
    snd (handleVideoInfo currentTab iso response playlist) = [Alert message].
Proof.
  intros Hin. apply known_url in Hin. unfold handleVideoInfo.
  destruct response as [[ct d p|m]|]; simpl; rewrite ?Hin; simpl;
    (split; [reflexivity|eexists; reflexivity]).
Qed.

Lemma readding_keeps_first_position_witness :
  In (tab_url Cases.a_tab) (map url [Cases.an_entry]) /\
  fst (handleVideoInfo Cases.a_tab "t2"
         (Some (Content.Success (Num 300) (Num 600) false)) [Cases.an_entry])
  = [Cases.an_entry].
Proof.
  assert (H : In (tab_url Cases.a_tab) (map url [Cases.an_entry]))
    by (now left).
  split; [exact H|].
  exact (proj1 (readding_keeps_first_position Cases.a_tab "t2"
                  (Some (Content.Success (Num 300) (Num 600) false))
                  [Cases.an_entry] H)).
Defined.

(** X25: adding a video whose URL is new puts it last, with the tab's
    URL and title and the reported position ([0] for a position that is 0
    or not a number), and removing the last entry then gives the playlist
    back. *)
Theorem add_then_remove (currentTab : Tab) (iso : string)
    (currentTime duration : number) (isPaused : bool) (playlist : list Entry) :
  ~ In (tab_url currentTab) (map url playlist) ->
  let added_to :=
    fst (handleVideoInfo currentTab iso
           (Some (Content.Success currentTime duration isPaused)) playlist) in
  nth_error added_to (List.length playlist)
  = Some {| url := tab_url currentTab; title := tab_title currentTab;
            timestamp := or_zero currentTime; added := iso |} /\
  fst (removeVideo (List.length playlist) added_to) = playlist.
Proof.
  intros Hnew added_to. unfold added_to, handleVideoInfo. simpl.
  destruct (existsb (fun v => url v =? tab_url currentTab) playlist) eqn:E.
  { apply known_url in E. contradiction. }
  simpl. split.
  - rewrite nth_error_app2 by lia. now rewrite Nat.sub_diag.
  - unfold splice1.
    rewrite skipn_all2 by (rewrite length_app; simpl; lia).
    rewrite app_nil_r, firstn_app, firstn_all, Nat.sub_diag, firstn_0.
    apply app_nil_r.
Qed.

Lemma add_then_remove_witness :
  ~ In (tab_url Cases.a_tab) (map url (@nil Entry)) /\
  fst (removeVideo 0
         (fst (handleVideoInfo Cases.a_tab "t1"
                 (Some (Content.Success (Num 90) (Num 600) true)) [])))
  = [].
Proof.
  assert (H : ~ In (tab_url Cases.a_tab) (map url (@nil Entry)))
    by (intros []).
  split; [exact H|].
  exact (proj2 (@add_then_remove Cases.a_tab "t1" (Num 90) (Num 600) true [] H)).
Defined.
End PlaylistFacts.

(** ** From the playlist to the page *)

Section SavedPosition.
Import JS Popup.
Local Open Scope string_scope.
Local Open Scope list_scope.

(** X26: the position saved is the position sought.  When the current
    video is added to an empty playlist and its "PiP" button is pressed,
    a [triggerPip] message is sent (3 seconds after the tab is created)
    only if the page had answered with a video, and it carries the reported
    position.  If that position was 0 (or not a number) the content script
    of the new tab does nothing at all; otherwise it seeks the tab's first
    video to the reported position and plays it. *)
Theorem saved_position_round_trip
    (currentTab : Tab) (iso : string) (page new_tab : Content.Env)
    (request : Content.Request) (delay : N) :
  In (SendMessage delay request)
     (pipVideo 0 (fst (addCurrentVideo [currentTab] (Some page) None iso []))) ->
  delay = 3000%N /\ Content.action request = "triggerPip" /\
  exists currentTime duration isPaused,
    ask (Some page) = Some (Content.Success currentTime duration isPaused) /\
    Content.timestamp request = Some (or_zero currentTime) /\
    (or_zero currentTime = Num 0 -> Content.effects new_tab request = []) /\
    (or_zero currentTime <> Num 0 ->
     forall v, shift (Content.page_videos (Content.page_at new_tab 2000)) = Some v ->
     exists rest,
       Content.effects new_tab request
       = (2000%N, Content.SetCurrentTime (Content.v_id v) (Number currentTime))
           :: (2000%N, Content.Play (Content.v_id v)) :: rest).
Proof.
  unfold addCurrentVideo, handleVideoInfo.
  destruct (ask (Some page)) as [[ct d p|m]|] eqn:A; simpl;
    [|intros H; exact (False_ind _ H)|intros H; exact (False_ind _ H)].
  intros [H|[H|H]]; [discriminate H| |exact (False_ind _ H)].
  injection H as <- <-.
  split; [reflexivity|]. split; [reflexivity|].
  exists ct, d, p. split; [reflexivity|]. split; [reflexivity|].
  unfold Content.effects, Content.listener, Content.get_timestamp. simpl.
  split.
  - intros ->. reflexivity.
  - intros Hnz v Hv. unfold or_zero in *.
    destruct ct as [z|]; simpl in *; [|congruence].
    destruct (z =? 0)%Z eqn:Z; simpl in *; [congruence|].
    rewrite Z. simpl. rewrite Hv. simpl. eexists. reflexivity.
Qed.

Lemma saved_position_round_trip_witness :
  In (SendMessage 3000 Cases.pip_at_90)
     (pipVideo 0 (fst (addCurrentVideo [Cases.a_tab] (Some Cases.at_90) None
                         "t1" []))) /\
  Content.action Cases.pip_at_90 = "triggerPip".
Proof.
  assert (H : In (SendMessage 3000 Cases.pip_at_90)
                (pipVideo 0 (fst (addCurrentVideo [Cases.a_tab]
                                    (Some Cases.at_90) None "t1" []))))
    by (vm_compute; tauto).
  split; [exact H|].
  exact (proj1 (proj2 (@saved_position_round_trip Cases.a_tab "t1"
                         Cases.at_90 Cases.at_90 _ _ H))).
Defined.
End SavedPosition.

(** ** The FAQs page *)

Section FaqsFacts.
Import Faqs.
Local Open Scope string_scope.
Local Open Scope list_scope.

(** The quotient exceeds 45 exactly when more than 3 888 000 000 ms
    have passed. *)
Lemma doUpdate_spec (now last : Z) :
  doUpdate now last = true <-> (forty_five_days < now - last)%Z.
Proof.
  unfold doUpdate, forty_five_days. rewrite negb_true_iff.
  rewrite <- not_true_iff_false, QArith_base.Qle_bool_iff.
  unfold QArith_base.Qle, QArith_base.Qdiv, QArith_base.Qmult,
    QArith_base.Qinv, QArith_base.inject_Z. simpl.
  lia.
Qed.

Lemma opened_shape (webdriver : bool) (m : Manifest) (installType : string)
    (now later : Z) (tbs : option (list Z)) (d : Details) (s : Storage) :
  snd (onInstalled webdriver m installType now later tbs d s) <> [] ->
  webdriver = false /\ installType = "normal" /\
  ((reason d =? "install") || (prefs_faqs s && (reason d =? "update")))%bool
    = true /\
  doUpdate now (prefs_last_update s) = true /\
  changed (previousVersion d) (version m) = true /\
  onInstalled webdriver m installType now later tbs d s
  = ({| stored_faqs := stored_faqs s; stored_last_update := Some later |},
     [ TabsQuery; StorageSetLastUpdate later;
       TabsCreate (faq_url m d) (reason d =? "install") (next_to tbs) ]).
Proof.
  unfold onInstalled. destruct webdriver; [intros H; now elim H|].
  destruct (String.eqb_spec installType "normal") as [->|_]; simpl;
    [|intros H; now elim H].
  destruct ((reason d =? "install") || (prefs_faqs s && (reason d =? "update")))%bool;
    [|intros H; now elim H].
  destruct (doUpdate now (prefs_last_update s)); simpl;
    [|intros H; now elim H].
  destruct (changed (previousVersion d) (version m)); simpl;
    [|intros H; now elim H].
  intros _. repeat split.
Qed.

(** X27: the page is opened at most once in 45 days.  When an
    [onInstalled] event opens it, ['last-update'] is set to the time of the
    event, and every later event that comes no more than 45 days after
    that, whatever its reason, versions and install type, opens nothing and
    changes nothing. *)
Theorem faq_page_rate_limited
    (webdriver : bool) (m : Manifest) (installType : string)
    (now later : Z) (tbs : option (list Z)) (d : Details) (s : Storage) :
  snd (onInstalled webdriver m installType now later tbs d s) <> [] ->
  let s' := fst (onInstalled webdriver m installType now later tbs d s) in
  stored_last_update s' = Some later /\
  forall webdriver' m' installType' now' later' tbs' d',
    (now' - later <= forty_five_days)%Z ->
    onInstalled webdriver' m' installType' now' later' tbs' d' s' = (s', []).
Proof.
  intros H s'. destruct (opened_shape _ _ _ _ _ _ _ _ H) as [_ [_ [_ [_ [_ E]]]]].
  unfold s'. rewrite E. simpl. split; [reflexivity|].
  intros webdriver' m' installType' now' later' tbs' d' Hd.
  unfold onInstalled. destruct webdriver'; [reflexivity|].
  destruct (negb (installType' =? "normal")); [reflexivity|].
  destruct ((reason d' =? "install") || _)%bool; [|reflexivity].
  unfold prefs_last_update. simpl.
  destruct (doUpdate now' later) eqn:U; [|reflexivity].
  apply doUpdate_spec in U. lia.
Qed.

Lemma faq_page_rate_limited_witness :
  snd (onInstalled false Cases.a_manifest "normal" 1700000000000 1700000000001
         (Some [3%Z]) Cases.an_update Cases.no_storage) <> [] /\
  onInstalled false Cases.a_manifest "normal" 1703888000001 1703888000002
    None Cases.an_update
    (fst (onInstalled false Cases.a_manifest "normal" 1700000000000
            1700000000001 (Some [3%Z]) Cases.an_update Cases.no_storage))
  = (fst (onInstalled false Cases.a_manifest "normal" 1700000000000
            1700000000001 (Some [3%Z]) Cases.an_update Cases.no_storage), []).
Proof.
  assert (H : snd (onInstalled false Cases.a_manifest "normal" 1700000000000
                     1700000000001 (Some [3%Z]) Cases.an_update Cases.no_storage)
              <> []) by (vm_compute; discriminate).
  split; [exact H|].
  apply (proj2 (@faq_page_rate_limited false Cases.a_manifest "normal"
                  1700000000000 1700000000001 (Some [3%Z]) Cases.an_update
                  Cases.no_storage H)).
  vm_compute. discriminate.
Defined.

(** X28: what opening the page takes.  The page is opened only outside
    browser automation, for a normal install type, on an install or (with
    the [faqs] preference on) an update, when the previous version is not
    the current one and more than 45 days have passed since
    ['last-update']; the tab is then active exactly on install and placed
    right after the first tab the query found. *)
Theorem faq_page_gating
    (webdriver : bool) (m : Manifest) (installType : string)
    (now later : Z) (tbs : option (list Z)) (d : Details) (s : Storage) :
  snd (onInstalled webdriver m installType now later tbs d s) <> [] ->
  webdriver = false /\ installType = "normal" /\
  (reason d = "install" \/ reason d = "update" /\ prefs_faqs s = true) /\
  previousVersion d <> Some (version m) /\
  (forty_five_days < now - prefs_last_update s)%Z /\
  exists url,
    snd (onInstalled webdriver m installType now later tbs d s)
    = [ TabsQuery; StorageSetLastUpdate later;
        TabsCreate url (reason d =? "install")
          (match tbs with
           | Some (first :: _) => Some (first + 1)%Z
           | _ => None
           end) ].
Proof.
  intros H.
  destruct (opened_shape _ _ _ _ _ _ _ _ H) as [Hw [Hi [Hr [Hu [Hc E]]]]].
  split; [exact Hw|]. split; [exact Hi|]. split; [|split; [|split]].
  - apply orb_true_iff in Hr. destruct Hr as [Hr|Hr].
    + left. now apply String.eqb_eq.
    + apply andb_true_iff in Hr. destruct Hr as [Hf Hr].
      right. split; [now apply String.eqb_eq|exact Hf].
  - unfold changed in Hc. intros Heq. rewrite Heq in Hc.
    now rewrite String.eqb_refl in Hc.
  - now apply doUpdate_spec.
  - exists (faq_url m d). rewrite E. reflexivity.
Qed.

Lemma faq_page_gating_witness :
  snd (onInstalled false Cases.a_manifest "normal" 1700000000000 1700000000001
         (Some [3%Z]) Cases.an_update Cases.no_storage) <> [] /\
  (forty_five_days < 1700000000000 - prefs_last_update Cases.no_storage)%Z.
Proof.
  assert (H : snd (onInstalled false Cases.a_manifest "normal" 1700000000000
                     1700000000001 (Some [3%Z]) Cases.an_update Cases.no_storage)
              <> []) by (vm_compute; discriminate).
  split; [exact H|].
  exact (proj1 (proj2 (proj2 (proj2 (proj2
           (@faq_page_gating false Cases.a_manifest "normal" 1700000000000
              1700000000001 (Some [3%Z]) Cases.an_update Cases.no_storage H)))))).
Defined.
End FaqsFacts.
